(** * generate_php_builtins.py: the symbol extractor of phpstorm-stubs

    A shallow embedding of [src/mcp-server/chainguard/generate_php_builtins.py]:
    the pattern registry and Python's backtracking matcher behind [re.finditer],
    the name filter, the per-file extractor, the corpus walker, the acquisition
    of the stubs and the report, followed by the properties of the pipeline. *)

From Stdlib Require Import NArith Strings.String Strings.Ascii Strings.Byte List Sorting.Sorted.
From stdpp Require Import base option list sorting gmap strings.

Local Open Scope N_scope.
Local Set Warnings "-comment-terminator-in-string,-clear-no-such-hyp".

(** ** Text

    A Python [str] is a sequence of code points; [bytes] is a sequence of
    octets.  A path is the tuple [Path.parts]. *)

Abbreviation str := (list N).
Abbreviation path := (list string).

Definition pystr (s : string) : str := map N_of_ascii (list_ascii_of_string s).

Definition NL : N := 10.
Definition CR : N := 13.

(** ** Regular expressions ([re], Unicode patterns compiled with [re.MULTILINE]) *)

Module Re.

(** A single-character matcher: [\s], or a bracket expression given by its
    inclusive ranges ([[^...]] when [neg]). *)
Inductive cclass :=
| Space
| Bracket (neg : bool) (ranges : list (N * N)).

(** The patterns of the registry use literals, classes, greedy [*] and [+]
    over one class, greedy [(?:...)?], [|], concatenation and one capture. *)
Inductive regex :=
| Eps
| Bol
| Chr (c : N)
| Cls (k : cclass)
| Star (k : cclass)
| Plus (k : cclass)
| Opt (r : regex)
| Alt (r1 r2 : regex)
| Cat (r1 r2 : regex)
| Group (r : regex).

(** [Py_UNICODE_ISSPACE]: what [\s] matches in a [str] pattern. *)
Definition is_space (c : N) : bool :=
  (9 <=? c) && (c <=? 13) || (28 <=? c) && (c <=? 32)
  || (c =? 133) || (c =? 160) || (c =? 5760)
  || (8192 <=? c) && (c <=? 8202)
  || (c =? 8232) || (c =? 8233) || (c =? 8239) || (c =? 8287) || (c =? 12288).

Definition in_range (c : N) (r : N * N) : bool := (fst r <=? c) && (c <=? snd r).

Definition cmatch (k : cclass) (c : N) : bool :=
  match k with
  | Space => is_space c
  | Bracket neg ranges => xorb neg (existsb (in_range c) ranges)
  end.

(** With [re.MULTILINE], [^] matches at the start of the text and right
    after each line feed; the flag [bol] says whether the cursor is there. *)
Definition after (c : N) : bool := c =? NL.

Section Exec.
Context {A : Type}.

(** Greedy repetition of one class: take as many characters as match, then
    give one back at a time while the rest of the pattern fails. *)
Fixpoint star (k : cclass) (bol : bool) (s : str) (K : bool -> str -> option A)
  : option A :=
  match s with
  | c :: s' =>
      if cmatch k c then
        match star k (after c) s' K with
        | Some r => Some r
        | None => K bol s
        end
      else K bol s
  | [] => K bol s
  end.

(** The backtracking matcher in continuation-passing style: [K] is the rest
    of the pattern, fed the cursor and the text of group 1. *)
Fixpoint exec (r : regex) (bol : bool) (s : str) (cap : option str)
    (K : bool -> str -> option str -> option A) : option A :=
  match r with
  | Eps => K bol s cap
  | Bol => if bol then K bol s cap else None
  | Chr c =>
      match s with
      | x :: s' => if x =? c then K (after x) s' cap else None
      | [] => None
      end
  | Cls k =>
      match s with
      | x :: s' => if cmatch k x then K (after x) s' cap else None
      | [] => None
      end
  | Star k => star k bol s (fun b' s' => K b' s' cap)
  | Plus k =>
      match s with
      | x :: s' =>
          if cmatch k x then star k (after x) s' (fun b' s' => K b' s' cap)
          else None
      | [] => None
      end
  | Opt r1 =>
      match exec r1 bol s cap K with
      | Some x => Some x
      | None => K bol s cap
      end
  | Alt r1 r2 =>
      match exec r1 bol s cap K with
      | Some x => Some x
      | None => exec r2 bol s cap K
      end
  | Cat r1 r2 => exec r1 bol s cap (fun b' s' cap' => exec r2 b' s' cap' K)
  | Group r1 =>
      exec r1 bol s cap
        (fun b' s' _ => K b' s' (Some (take (length s - length s') s)))
  end.

End Exec.

(** [pattern.match] at the cursor: [group(1)] and the text left after the
    match.  Group 1 lies on the mandatory path of every pattern below. *)
Definition match_at (r : regex) (bol : bool) (s : str) : option (str * str) :=
  exec r bol s None (fun _ s' cap => Some (default [] cap, s')).

(** [pattern.finditer(content)], as the list of [match.group(1)]: scan from
    the left, and after a match resume at its end ([skip] counts the
    characters of the last match still to pass).  No pattern of the registry
    matches the empty string. *)
Fixpoint scan (r : regex) (bol : bool) (s : str) (skip : nat) : list str :=
  match s with
  | [] =>
      match skip, match_at r bol [] with
      | O, Some (name, _) => [name]
      | _, _ => []
      end
  | c :: s' =>
      match skip with
      | S n => scan r (after c) s' n
      | O =>
          match match_at r bol s with
          | Some (name, s_end) =>
              name :: scan r (after c) s' (length s - length s_end - 1)
          | None => scan r (after c) s' 0
          end
      end
  end.

Definition finditer (r : regex) (content : str) : list str :=
  scan r true content 0.

Definition cat (rs : list regex) : regex := foldr Cat Eps rs.
Definition lit (s : string) : regex := cat (map Chr (pystr s)).

End Re.

Import Re.

(** ** Configuration (lines 30-66) *)

Definition PHPSTORM_STUBS_REPO : string :=
  "https://github.com/JetBrains/phpstorm-stubs.git".
Definition PHPSTORM_STUBS_BRANCH : string := "master".

Definition SKIP_DIRS : list string :=
  [".git"; ".github"; "tests"; "meta"; ".idea"]%string.

Definition INCLUDE_EXTENSIONS : list string := [].

(** [[a-zA-Z_]], [[a-zA-Z0-9_]], [[A-Z]], [[A-Z_]], [[A-Z0-9_]], [[^)]] and
    the bracket holding the single and the double quote. *)
Definition c_az_AZ_us : cclass := Bracket false [(97, 122); (65, 90); (95, 95)].
Definition c_az_AZ_09_us : cclass :=
  Bracket false [(97, 122); (65, 90); (48, 57); (95, 95)].
Definition c_AZ : cclass := Bracket false [(65, 90)].
Definition c_AZ_us : cclass := Bracket false [(65, 90); (95, 95)].
Definition c_AZ_09_us : cclass := Bracket false [(65, 90); (48, 57); (95, 95)].
Definition c_not_rparen : cclass := Bracket true [(41, 41)].
Definition c_quote : cclass := Bracket false [(39, 39); (34, 34)].

Definition LPAREN : N := 40.
Definition RPAREN : N := 41.
Definition COLON : N := 58.
Definition EQUALS : N := 61.

(** The capture "([a-zA-Z_][a-zA-Z0-9_]*)". *)
Definition g_name : regex := Group (Cat (Cls c_az_AZ_us) (Star c_az_AZ_09_us)).
(** The capture "([A-Z][a-zA-Z0-9_]*)". *)
Definition g_class : regex := Group (Cat (Cls c_AZ) (Star c_az_AZ_09_us)).
(** The capture "([A-Z_][A-Z0-9_]*)". *)
Definition g_const : regex := Group (Cat (Cls c_AZ_us) (Star c_AZ_09_us)).

Definition FUNCTION_PATTERNS : list regex :=
  [ (* "^\s*function\s+([a-zA-Z_][a-zA-Z0-9_]*)\s*\(" *)
    cat [Bol; Star Space; lit "function"; Plus Space; g_name; Star Space;
         Chr LPAREN];
    (* "^\s*function\s+([a-zA-Z_][a-zA-Z0-9_]*)\s*\([^)]*\)\s*:" *)
    cat [Bol; Star Space; lit "function"; Plus Space; g_name; Star Space;
         Chr LPAREN; Star c_not_rparen; Chr RPAREN; Star Space; Chr COLON] ].

Definition CLASS_PATTERNS : list regex :=
  [ (* "^\s*(?:abstract\s+)?class\s+([A-Z][a-zA-Z0-9_]*)" *)
    cat [Bol; Star Space; Opt (cat [lit "abstract"; Plus Space]); lit "class";
         Plus Space; g_class];
    (* "^\s*interface\s+([A-Z][a-zA-Z0-9_]*)" *)
    cat [Bol; Star Space; lit "interface"; Plus Space; g_class];
    (* "^\s*trait\s+([A-Z][a-zA-Z0-9_]*)" *)
    cat [Bol; Star Space; lit "trait"; Plus Space; g_class] ].

Definition METHOD_PATTERNS : list regex :=
  [ (* "^\s*(?:public|protected|private)?\s*(?:static\s+)?function\s+([a-zA-Z_][a-zA-Z0-9_]*)\s*\(" *)
    cat [Bol; Star Space;
         Opt (Alt (lit "public") (Alt (lit "protected") (lit "private")));
         Star Space; Opt (cat [lit "static"; Plus Space]); lit "function";
         Plus Space; g_name; Star Space; Chr LPAREN] ].

Definition CONSTANT_PATTERNS : list regex :=
  [ (* "^\s*define\s*\(\s*[Q]([A-Z_][A-Z0-9_]*)[Q]", with the single and the
       double quote for Q *)
    cat [Bol; Star Space; lit "define"; Star Space; Chr LPAREN; Star Space;
         Cls c_quote; g_const; Cls c_quote];
    (* "^\s*const\s+([A-Z_][A-Z0-9_]*)\s*=" *)
    cat [Bol; Star Space; lit "const"; Plus Space; g_const; Star Space;
         Chr EQUALS] ].

(** ** Reading a file: [Path.read_text(encoding='utf-8', errors='ignore')] *)

Module Utf8.

Definition is_cont (b : N) : bool := (128 <=? b) && (b <? 192).

(** CPython's UTF-8 decoder.  An ill-formed sequence is an error over the
    bytes read so far (one for a bad start byte, one to three before a bad
    continuation byte, all that is left for a truncated sequence); the
    [strict] handler raises [UnicodeDecodeError] ([None]), the [ignore]
    handler drops those bytes and goes on. *)
Fixpoint decode (ignore : bool) (bs : list N) : option str :=
  let bad (k : option str) : option str := if ignore then k else None in
  let emit (c : N) (k : option str) : option str := cons c <$> k in
  match bs with
  | [] => Some []
  | b0 :: t0 =>
      if b0 <? 128 then emit b0 (decode ignore t0)
      else if b0 <? 194 then bad (decode ignore t0)
      else if b0 <? 224 then
        match t0 with
        | [] => bad (Some [])
        | b1 :: t1 =>
            if is_cont b1
            then emit ((b0 - 192) * 64 + (b1 - 128)) (decode ignore t1)
            else bad (decode ignore t0)
        end
      else if b0 <? 240 then
        match t0 with
        | [] => bad (Some [])
        | b1 :: t1 =>
            if negb (is_cont b1) || (b0 =? 224) && (b1 <? 160)
               || (b0 =? 237) && (160 <=? b1)
            then bad (decode ignore t0)
            else
              match t1 with
              | [] => bad (Some [])
              | b2 :: t2 =>
                  if is_cont b2
                  then emit ((b0 - 224) * 4096 + (b1 - 128) * 64 + (b2 - 128))
                         (decode ignore t2)
                  else bad (decode ignore t1)
              end
        end
      else if b0 <? 245 then
        match t0 with
        | [] => bad (Some [])
        | b1 :: t1 =>
            if negb (is_cont b1) || (b0 =? 240) && (b1 <? 144)
               || (b0 =? 244) && (144 <=? b1)
            then bad (decode ignore t0)
            else
              match t1 with
              | [] => bad (Some [])
              | b2 :: t2 =>
                  if is_cont b2 then
                    match t2 with
                    | [] => bad (Some [])
                    | b3 :: t3 =>
                        if is_cont b3
                        then emit ((b0 - 240) * 262144 + (b1 - 128) * 4096
                                   + (b2 - 128) * 64 + (b3 - 128))
                               (decode ignore t3)
                        else bad (decode ignore t2)
                    end
                  else bad (decode ignore t1)
              end
        end
      else bad (decode ignore t0)
  end.

(** Text mode with the default [newline=None]: a carriage return, alone or
    before a line feed, is read as one line feed. *)
Fixpoint universal_newlines (s : str) : str :=
  match s with
  | [] => []
  | c :: t =>
      if c =? CR then
        NL :: match t with
              | d :: t' =>
                  if d =? NL then universal_newlines t' else universal_newlines t
              | [] => []
              end
      else c :: universal_newlines t
  end.

Definition read (data : list byte) : str :=
  universal_newlines (default [] (decode true (map Byte.to_N data))).

End Utf8.

(** ** The name filter (lines 153-167) *)

(** [str.lower] on the characters a capture of "[a-zA-Z_][a-zA-Z0-9_]*" is
    made of: the ASCII capitals go to their small letters.  On other
    characters [str.lower] does more (the Kelvin sign goes to the letter k);
    the statements on the filter speak of names of those characters only,
    which is what [word] says. *)
Definition lower_char (c : N) : N := if (65 <=? c) && (c <=? 90) then c + 32 else c.
Definition lower (s : str) : str := map lower_char s.

Definition keywords : list str :=
  map pystr
    [ "if"; "else"; "elseif"; "while"; "do"; "for"; "foreach";
      "switch"; "case"; "default"; "break"; "continue"; "return";
      "try"; "catch"; "finally"; "throw"; "class"; "interface";
      "trait"; "extends"; "implements"; "public"; "protected";
      "private"; "static"; "abstract"; "final"; "const"; "function";
      "new"; "clone"; "instanceof"; "use"; "namespace"; "echo";
      "print"; "die"; "exit"; "include"; "include_once"; "require";
      "require_once"; "global"; "var"; "list"; "array"; "callable";
      "self"; "parent"; "true"; "false"; "null"; "and"; "or"; "xor";
      "as"; "yield"; "match"; "fn"; "readonly"; "enum" ]%string.

Definition _is_valid_function_name (name : str) : bool :=
  negb (bool_decide (lower name ∈ keywords)) && bool_decide (2 <= length name)%nat.

(** ** [sorted]: ascending by code point, a proper prefix first *)

Fixpoint str_leb (x y : str) : bool :=
  match x, y with
  | [], _ => true
  | _ :: _, [] => false
  | a :: x', b :: y' => (a <? b) || (a =? b) && str_leb x' y'
  end.

Definition str_le (x y : str) : Prop := str_leb x y = true.

#[global] Instance str_le_dec : RelDecision str_le.
Proof. intros x y. unfold str_le. apply _. Defined.

Definition sorted (s : gset str) : list str := merge_sort str_le (elements s).

(** ** The report (lines 206-228) *)

Record Meta := {
  generated_at : string;
  source : string;
  branch : string;
  version : string;
  license : string;
  copyright : string;
  license_url : string
}.

Record Stats := {
  stat_functions : nat;
  stat_classes : nat;
  stat_methods : nat;
  stat_constants : nat;
  total_unique : nat
}.

Record Symbols := {
  sym_functions : list str;
  sym_classes : list str;
  sym_methods : list str;
  sym_constants : list str
}.

Record Report := { meta : Meta; stats : Stats; symbols : Symbols }.

(** ** The file system and the world outside the program *)

(** A directory, a regular file, or a file [open] refuses to the process. *)
Inductive node :=
| Dir
| File (data : list byte)
| NoAccess.

Abbreviation FS := (gmap path node).

Inductive exn :=
| CalledProcessError
| FileExistsError
| FileNotFoundError
| NotADirectoryError
| IsADirectoryError
| PermissionError
| UnicodeEncodeError
| OSError.

(** What a run takes from outside: the directory and the candidate names of
    [tempfile], the outcome of the one [git clone] (the work tree it
    populates, by relative path, or [None] when it exits non-zero), the clock
    and the bytes [json.dump] writes for a report. *)
Record world := {
  tmpdir : path;
  tmp_names : list string;
  git_clone : option (list (path * node));
  utcnow : string;
  json_dump : Report -> list byte
}.

(** Lines printed to the standard streams.  In the definitions of this part
    every [print] succeeds; the part on the run when printing and removing
    can fail has them with a [print] that can raise. *)
Inductive line :=
| Found (n : nat)
| Warning (file : path)
| Processed (i total : nat)
| Cloning (target_dir : path)
| Generated (output_path : path) (st : Stats)
| CleaningUp
| Error (e : exn).

Definition exists_ (fs : FS) (p : path) : bool := bool_decide (is_Some (fs !! p)).
Definition is_dir (fs : FS) (p : path) : bool :=
  match fs !! p with Some Dir => true | _ => false end.

Definition parent (p : path) : path :=
  if decide (p = ["/"%string]) then p else removelast p.

(** [read_text] raises on anything but a regular file; the bytes of a file
    always decode, since the ill-formed ones are ignored. *)
Definition read_text (fs : FS) (p : path) : option str :=
  match fs !! p with
  | Some (File data) => Some (Utf8.read data)
  | _ => None
  end.

(** [root.rglob('*.php')]: the entries below [root], reached through
    directories, whose name ends in ".php".  The order is the file
    system's; the model takes the one of the map. *)
Definition is_php (p : path) : bool :=
  match last p with
  | Some name =>
      bool_decide (list_ascii_of_string ".php" `suffix_of` list_ascii_of_string name)
  | None => false
  end.

Definition descends (fs : FS) (root p : path) : bool :=
  bool_decide (root `prefix_of` p) && bool_decide (length root < length p)%nat
  && forallb (fun k => is_dir fs (take k p)) (seq (length root) (length p - length root)).

Definition rglob (fs : FS) (root : path) : list path :=
  filter (fun p => is_php p && descends fs root p) (map fst (map_to_list fs)).

(** [shutil.rmtree] in a tree the process may remove every entry of;
    [rmtree_on] below is the one that can raise. *)
Definition rmtree (fs : FS) (p : path) : FS :=
  filter (fun kv => ¬ (p `prefix_of` kv.1)) fs.

(** [tempfile.mkdtemp(prefix='phpstorm-stubs-')]: the first candidate name
    not taken yet. *)
Definition mkdtemp (w : world) (fs : FS) : exn + (path * FS) :=
  if is_dir fs (tmpdir w) then
    match find (fun n => negb (exists_ fs (tmpdir w ++ [("phpstorm-stubs-" ++ n)%string])))
               (tmp_names w) with
    | Some n =>
        let d := tmpdir w ++ [("phpstorm-stubs-" ++ n)%string] in
        inr (d, <[d := Dir]> fs)
    | None => inl FileExistsError
    end
  else inl FileNotFoundError.

(** [path.mkdir(parents=True, exist_ok=True)]. *)
Definition mkdir_parents (fs : FS) (p : path) : exn + FS :=
  if exists_ fs p && negb (is_dir fs p) then inl FileExistsError
  else if forallb (fun k => negb (exists_ fs (take k p)) || is_dir fs (take k p))
            (seq 1 (length p))
  then inr (foldr (fun k m => <[take k p := Dir]> m) fs (seq 1 (length p)))
  else inl NotADirectoryError.

(** [open(path, 'w')] followed by the write. *)
Definition write_file (fs : FS) (p : path) (data : list byte) : exn + FS :=
  if is_dir fs p || bool_decide (p = []) then inl IsADirectoryError
  else match fs !! p with
       | Some NoAccess => inl PermissionError
       | _ => inr (<[p := File data]> fs)
       end.

(** ** The extractor (lines 73-151) *)

Record PHPStubsExtractor := {
  stubs_path : path;
  functions : gset str;
  classes : gset str;
  methods : gset str;
  constants : gset str
}.

(** [PHPStubsExtractor.__init__] *)
Definition new_extractor (root : path) : PHPStubsExtractor :=
  {| stubs_path := root; functions := ∅; classes := ∅; methods := ∅;
     constants := ∅ |}.

(** One of the four loops of [_extract_from_file]:
    [for pattern in patterns: for match in pattern.finditer(content):
       name = match.group(1); if accept(name): the_set.add(name)]. *)
Definition add_matches (accept : str -> bool) (patterns : list regex)
    (content : str) (the_set : gset str) : gset str :=
  foldl (fun acc pattern =>
           foldl (fun acc name => if accept name then {[name]} ∪ acc else acc)
             acc (finditer pattern content))
    the_set patterns.

Definition extract_content (content : str) (self : PHPStubsExtractor)
  : PHPStubsExtractor :=
  {| stubs_path := stubs_path self;
     functions :=
       add_matches _is_valid_function_name FUNCTION_PATTERNS content (functions self);
     classes := add_matches (fun _ => true) CLASS_PATTERNS content (classes self);
     methods :=
       add_matches _is_valid_function_name METHOD_PATTERNS content (methods self);
     constants :=
       add_matches (fun _ => true) CONSTANT_PATTERNS content (constants self) |}.

Definition _extract_from_file (fs : FS) (self : PHPStubsExtractor)
    (file_path : path) : PHPStubsExtractor * list line :=
  match read_text fs file_path with
  | None => (self, [Warning file_path])
  | Some content => (extract_content content self, [])
  end.

(** The test of line 97 and the one of lines 101-104. *)
Definition in_skip_dir (php_file : path) : bool :=
  existsb (fun skip => bool_decide (skip ∈ php_file)) SKIP_DIRS.

Definition excluded_extension (php_file : path) : bool :=
  match INCLUDE_EXTENSIONS with
  | [] => false
  | _ =>
      negb (bool_decide (default ""%string (last (parent php_file)) ∈ INCLUDE_EXTENSIONS))
  end.

(** The loop of [extract_all] over [enumerate(php_files)], from index [i]. *)
Fixpoint walk (fs : FS) (total : nat) (php_files : list path) (i : nat)
    (self : PHPStubsExtractor) : PHPStubsExtractor * list line :=
  match php_files with
  | [] => (self, [])
  | php_file :: rest =>
      if in_skip_dir php_file then walk fs total rest (S i) self
      else if excluded_extension php_file then walk fs total rest (S i) self
      else
        let '(self1, out1) := _extract_from_file fs self php_file in
        let progress :=
          if ((i + 1) mod 100 =? 0)%nat then [Processed (i + 1) total] else [] in
        let '(self2, out2) := walk fs total rest (S i) self1 in
        (self2, out1 ++ progress ++ out2)
  end.

Definition symbols_of (self : PHPStubsExtractor) : Symbols :=
  {| sym_functions := sorted (functions self);
     sym_classes := sorted (classes self);
     sym_methods := sorted (methods self);
     sym_constants := sorted (constants self) |}.

(** [extract_all] once [rglob] has listed [php_files]. *)
Definition extract_files (fs : FS) (php_files : list path)
    (self : PHPStubsExtractor) : Symbols * PHPStubsExtractor * list line :=
  let '(self', out) := walk fs (length php_files) php_files 0 self in
  (symbols_of self', self', Found (length php_files) :: out).

Definition extract_all (fs : FS) (self : PHPStubsExtractor)
  : Symbols * PHPStubsExtractor * list line :=
  extract_files fs (rglob fs (stubs_path self)) self.

(** ** Acquisition and the run (lines 174-279) *)

(** [clone_stubs]: [subprocess.run([... 'git', 'clone' ...], check=True)].
    A failing clone leaves the directory it was given as it found it. *)
Definition populate (target_dir : path) (tree : list (path * node)) (fs : FS) : FS :=
  fs ∪ list_to_map (map (fun e => (target_dir ++ e.1, e.2)) tree).

Definition clone_stubs (w : world) (target_dir : path) (fs : FS)
  : (exn + path) * FS * list line :=
  match git_clone w with
  | Some tree => (inr target_dir, populate target_dir tree fs, [Cloning target_dir])
  | None => (inl CalledProcessError, fs, [Cloning target_dir])
  end.

(** Lines 193-198 of [generate_builtins]: the stubs to scan and
    [cleanup_needed]. *)
Definition acquire (w : world) (stubs_path : option path) (fs : FS)
  : (exn + (path * bool)) * FS * list line :=
  match stubs_path with
  | None =>
      match mkdtemp w fs with
      | inl e => (inl e, fs, [])
      | inr (temp_dir, fs1) =>
          match clone_stubs w temp_dir fs1 with
          | (inl e, fs2, out) => (inl e, fs2, out)
          | (inr stubs_path, fs2, out) => (inr (stubs_path, true), fs2, out)
          end
      end
  | Some stubs_path => (inr (stubs_path, false), fs, [])
  end.

Definition build_output (w : world) (symbols : Symbols) : Report :=
  {| meta :=
       {| generated_at := (utcnow w ++ "Z")%string;
          source := PHPSTORM_STUBS_REPO;
          branch := PHPSTORM_STUBS_BRANCH;
          version := "1.0";
          license := "Apache-2.0";
          copyright := "Copyright 2010-2024 JetBrains s.r.o.";
          license_url :=
            "https://github.com/JetBrains/phpstorm-stubs/blob/master/LICENSE" |};
     stats :=
       {| stat_functions := length (sym_functions symbols);
          stat_classes := length (sym_classes symbols);
          stat_methods := length (sym_methods symbols);
          stat_constants := length (sym_constants symbols);
          total_unique :=
            size ((list_to_set (sym_functions symbols) : gset str)
                  ∪ list_to_set (sym_classes symbols)
                  ∪ list_to_set (sym_methods symbols)) |};
     symbols := symbols |}.

(** The body of the [try] (lines 201-242). *)
Definition try_body (w : world) (output_path stubs_path : path) (fs : FS)
  : (exn + Report) * FS * list line :=
  let '(symbols, _, out) := extract_all fs (new_extractor stubs_path) in
  let output := build_output w symbols in
  match mkdir_parents fs (parent output_path) with
  | inl e => (inl e, fs, out)
  | inr fs1 =>
      match write_file fs1 output_path (json_dump w output) with
      | inl e => (inl e, fs1, out)
      | inr fs2 => (inr output, fs2, out ++ [Generated output_path (stats output)])
      end
  end.

(** The [finally] (lines 244-247). *)
Definition finally_ (cleanup_needed : bool) (stubs_path : path) (fs : FS)
  : FS * list line :=
  if cleanup_needed && exists_ fs stubs_path
  then (rmtree fs (parent stubs_path), [CleaningUp])
  else (fs, []).

Definition generate_builtins (w : world) (output_path : path)
    (stubs_path : option path) (fs : FS) : (exn + Report) * FS * list line :=
  match acquire w stubs_path fs with
  | (inl e, fs1, out) => (inl e, fs1, out)
  | (inr (stubs_path, cleanup_needed), fs1, out1) =>
      let '(r, fs2, out2) := try_body w output_path stubs_path fs1 in
      let '(fs3, out3) := finally_ cleanup_needed stubs_path fs2 in
      (r, fs3, out1 ++ out2 ++ out3)
  end.

(** [main]: the exit status of the process. *)
Definition main (w : world) (output : path) (stubs_path : option path) (fs : FS)
  : nat * FS * list line :=
  match generate_builtins w output stubs_path fs with
  | (inr _, fs', out) => (0%nat, fs', out)
  | (inl e, fs', out) => (1%nat, fs', out ++ [Error e])
  end.

(** ** What one file contributes

    The four sets of an extractor, the names a text holds for each of
    them, and their merging; the proofs below show that [walk] adds
    [file_symbols] of each file it is given. *)

Abbreviation Aggregate := (gset str * gset str * gset str * gset str)%type.

Definition aggregate (self : PHPStubsExtractor) : Aggregate :=
  (functions self, classes self, methods self, constants self).

Definition merge (a b : Aggregate) : Aggregate :=
  (a.1.1.1 ∪ b.1.1.1, a.1.1.2 ∪ b.1.1.2, a.1.2 ∪ b.1.2, a.2 ∪ b.2).

Definition no_symbols : Aggregate := (∅, ∅, ∅, ∅).

Definition captures (patterns : list regex) (content : str) : list str :=
  flat_map (fun pattern => finditer pattern content) patterns.

Definition matched (accept : str -> bool) (patterns : list regex)
    (content : str) : gset str :=
  list_to_set (List.filter accept (captures patterns content)).

Definition content_symbols (content : str) : Aggregate :=
  (matched _is_valid_function_name FUNCTION_PATTERNS content,
   matched (fun _ => true) CLASS_PATTERNS content,
   matched _is_valid_function_name METHOD_PATTERNS content,
   matched (fun _ => true) CONSTANT_PATTERNS content).

Definition skipped (php_file : path) : bool :=
  in_skip_dir php_file || excluded_extension php_file.

Definition file_symbols (fs : FS) (php_file : path) : Aggregate :=
  if skipped php_file then no_symbols
  else match read_text fs php_file with
       | Some content => content_symbols content
       | None => no_symbols
       end.

Definition merge_all (l : list Aggregate) : Aggregate := foldr merge no_symbols l.

(** ** A small corpus to run the model on *)

Definition bytes_of (s : string) : list byte :=
  map byte_of_ascii (list_ascii_of_string s).

Definition LF : string := String "010"%char EmptyString.

Definition sample_root : path := ["/"; "srv"; "stubs"]%string.
Definition sample_output : path := ["/"; "srv"; "data"; "php_builtins.json"]%string.

Definition in_stubs (rel : path) : path := app sample_root rel.

Definition sample_fs : FS :=
  list_to_map
    [ (["/"], Dir); (["/"; "tmp"], Dir); (["/"; "srv"], Dir);
      (sample_root, Dir);
      (in_stubs ["Core"], Dir);
      (in_stubs ["Core"; "Core.php"],
       File (bytes_of ("<?php" ++ LF ++ "function foo(int $x): bool {}" ++ LF
                       ++ "function if($x) {}" ++ LF
                       ++ "define('E_ALL', 32767);" ++ LF)));
      (in_stubs ["date"], Dir);
      (in_stubs ["date"; "date_c.php"],
       File (bytes_of ("abstract class DateTime implements Stringable {" ++ LF
                       ++ "    const ATOM = 1;" ++ LF
                       ++ "    public static function foo() {}" ++ LF
                       ++ "    public function format($f) {}" ++ LF ++ "}" ++ LF)));
      (in_stubs ["tests"], Dir);
      (in_stubs ["tests"; "t.php"],
       File (bytes_of ("function only_in_tests() {}" ++ LF)));
      (in_stubs ["mytests"], Dir);
      (in_stubs ["mytests"; "m.php"],
       File (bytes_of ("function not_a_test() {}" ++ LF)));
      (in_stubs ["locked.php"], NoAccess) ]%string.

Definition sample_world : world :=
  {| tmpdir := ["/"; "tmp"]%string;
     tmp_names := ["a1b2c3d4"]%string;
     git_clone := None;
     utcnow := "2024-05-01T12:00:00.000000";
     json_dump := fun _ => [] |}.

Definition sample_files : list path :=
  [ in_stubs ["Core"; "Core.php"]; in_stubs ["date"; "date_c.php"];
    in_stubs ["tests"; "t.php"]; in_stubs ["mytests"; "m.php"];
    in_stubs ["locked.php"] ]%string.

(** The report of a run over [sample_fs]: [tests] is passed over,
    [locked.php] cannot be read, [if] is no function name. *)
Definition sample_report : Report :=
  {| meta :=
       {| generated_at := "2024-05-01T12:00:00.000000Z";
          source := PHPSTORM_STUBS_REPO;
          branch := PHPSTORM_STUBS_BRANCH;
          version := "1.0";
          license := "Apache-2.0";
          copyright := "Copyright 2010-2024 JetBrains s.r.o.";
          license_url :=
            "https://github.com/JetBrains/phpstorm-stubs/blob/master/LICENSE" |};
     stats :=
       {| stat_functions := 2; stat_classes := 1; stat_methods := 3;
          stat_constants := 2; total_unique := 4 |};
     symbols :=
       {| sym_functions := [pystr "foo"; pystr "not_a_test"];
          sym_classes := [pystr "DateTime"];
          sym_methods := [pystr "foo"; pystr "format"; pystr "not_a_test"];
          sym_constants := [pystr "ATOM"; pystr "E_ALL"] |} |}.




(** A file whose first byte is no UTF-8, followed by a declaration. *)
Definition latin1_bytes : list byte := xff :: bytes_of "function foo() {}".

Definition latin1_fs : FS :=
  list_to_map
    [ (["/"]%string, Dir); (["/"; "srv"]%string, Dir); (sample_root, Dir);
      (in_stubs ["latin1.php"]%string, File latin1_bytes) ].

(** ** Reading the function and method patterns deterministically

    What the backtracking matcher computes on these patterns, written as
    plain functions on the text; the proofs below show that [match_at]
    agrees with them. *)

(** The longest run of one class, and the removal of a literal. *)
Fixpoint skip (k : cclass) (s : str) : str :=
  match s with
  | c :: s' => if cmatch k c then skip k s' else s
  | [] => []
  end.

Fixpoint strip (l s : str) : option str :=
  match l with
  | [] => Some s
  | a :: l' =>
      match s with
      | c :: s' => if c =? a then strip l' s' else None
      | [] => None
      end
  end.

(** Patterns without [^], and without a group. *)
Fixpoint bol_free (r : regex) : bool :=
  match r with
  | Bol => false
  | Opt r1 | Group r1 => bol_free r1
  | Alt r1 r2 | Cat r1 r2 => bol_free r1 && bol_free r2
  | _ => true
  end.

Fixpoint group_free (r : regex) : bool :=
  match r with
  | Group _ => false
  | Opt r1 => group_free r1
  | Alt r1 r2 | Cat r1 r2 => group_free r1 && group_free r2
  | _ => true
  end.

(** A continuation that does not look at the line-start flag. *)
Definition insens {A} (K : bool -> str -> option str -> option A) : Prop :=
  forall b1 b2 s cap, K b1 s cap = K b2 s cap.

(** The shared end of the function and method patterns, "function", white
    space, the name, white space and the parenthesis: the name it finds and
    the text after the parenthesis. *)
Definition fn_tail (s : str) : option (str * str) :=
  match strip (pystr "function") s with
  | Some (c :: s2) =>
      if is_space c then
        let s3 := skip Space s2 in
        match s3 with
        | c3 :: s4 =>
            if cmatch c_az_AZ_us c3 then
              let s5 := skip c_az_AZ_09_us s4 in
              match skip Space s5 with
              | c6 :: s7 =>
                  if c6 =? LPAREN
                  then Some (take (length s3 - length s5) s3, s7)
                  else None
              | [] => None
              end
            else None
        | [] => None
        end
      else None
  | _ => None
  end.

Definition fn_tail_re (R : regex) : regex :=
  Cat (lit "function")
    (Cat (Plus Space) (Cat g_name (Cat (Star Space) (Cat (Chr LPAREN) R)))).

(** The last continuation of [match_at]. *)
Definition final : bool -> str -> option str -> option (str * str) :=
  fun _ s' cap => Some (default [] cap, s').

(** The two function patterns and the method pattern, by name. *)
Definition F1 : regex := Cat Bol (Cat (Star Space) (fn_tail_re Eps)).
Definition F2 : regex :=
  Cat Bol (Cat (Star Space)
             (fn_tail_re (cat [Star c_not_rparen; Chr RPAREN; Star Space; Chr COLON]))).

(** A line starts a function declaration named [name]. *)
Definition fstart (s name : str) : Prop :=
  exists rest, fn_tail (skip Space s) = Some (name, rest).

(** The method pattern. *)
Definition strip_visibility (s : str) : option str :=
  match strip (pystr "public") s with
  | Some s' => Some s'
  | None =>
      match strip (pystr "protected") s with
      | Some s' => Some s'
      | None => strip (pystr "private") s
      end
  end.

Definition static_tail (s : str) : option (str * str) :=
  match strip (pystr "static") s with
  | Some (c :: s2) => if is_space c then fn_tail (skip Space s2) else None
  | Some [] => None
  | None => fn_tail s
  end.

Definition method_tail (s : str) : option (str * str) :=
  match strip_visibility s with
  | Some s1 => static_tail (skip Space s1)
  | None => static_tail (skip Space s)
  end.

Definition M1 : regex :=
  Cat Bol (Cat (Star Space)
    (Cat (Opt (Alt (lit "public") (Alt (lit "protected") (lit "private"))))
       (Cat (Star Space)
          (Cat (Opt (Cat (lit "static") (Cat (Plus Space) Eps)))
             (fn_tail_re Eps))))).

Definition lift {A} (K : bool -> str -> option str -> option A) (b : bool)
    (o : option (str * str)) : option A :=
  match o with
  | Some (name, rest) => K b rest (Some name)
  | None => None
  end.

Definition method_rest : regex :=
  Cat (Star Space)
    (Cat (Opt (Cat (lit "static") (Cat (Plus Space) Eps))) (fn_tail_re Eps)).

(** [follows_space s t]: [t] is what is left of [s] after some white-space
    character of [s]; [follows_nl], after some line feed. *)
Inductive follows_space : str -> str -> Prop :=
| follows_space_here c t : is_space c = true -> follows_space (c :: t) t
| follows_space_later c s t : follows_space s t -> follows_space (c :: s) t.

Inductive follows_nl : str -> str -> Prop :=
| follows_nl_here t : follows_nl (NL :: t) t
| follows_nl_later c s t : follows_nl s t -> follows_nl (c :: s) t.

(** Ascending with no name twice: what [sorted] makes of a set. *)
Definition ascending (l : list str) : Prop := StronglySorted str_le l /\ NoDup l.

(** In an aggregate, the functions are among the methods. *)
Definition functions_in_methods (a : Aggregate) : Prop := a.1.1.1 ⊆ a.1.2.

(** A name made of the characters of "[a-zA-Z0-9_]". *)
Definition word (name : str) : Prop :=
  Forall (fun c => cmatch c_az_AZ_09_us c = true) name.

(** ** The categories of symbols, and what the further properties speak of *)

(** The four categories of symbols, with the pattern list, the filter, the
    set and the list of each. *)
Inductive category := FunctionC | ClassC | MethodC | ConstantC.

Definition patterns_of (c : category) : list regex :=
  match c with
  | FunctionC => FUNCTION_PATTERNS
  | ClassC => CLASS_PATTERNS
  | MethodC => METHOD_PATTERNS
  | ConstantC => CONSTANT_PATTERNS
  end.

Definition accept_of (c : category) : str -> bool :=
  match c with
  | FunctionC | MethodC => _is_valid_function_name
  | ClassC | ConstantC => fun _ => true
  end.

Definition set_of (c : category) (a : Aggregate) : gset str :=
  match c with
  | FunctionC => a.1.1.1
  | ClassC => a.1.1.2
  | MethodC => a.1.2
  | ConstantC => a.2
  end.

Definition list_of (c : category) (s : Symbols) : list str :=
  match c with
  | FunctionC => sym_functions s
  | ClassC => sym_classes s
  | MethodC => sym_methods s
  | ConstantC => sym_constants s
  end.

(** The classes of the first and of the further characters of the capture
    of a category. *)
Definition first_of (c : category) : cclass :=
  match c with
  | FunctionC | MethodC => c_az_AZ_us
  | ClassC => c_AZ
  | ConstantC => c_AZ_us
  end.

Definition further_of (c : category) : cclass :=
  match c with
  | FunctionC | MethodC | ClassC => c_az_AZ_09_us
  | ConstantC => c_AZ_09_us
  end.

(** A name that starts with a character of [a] and goes on in [k]. *)
Definition shaped (a k : cclass) (name : str) : Prop :=
  exists c run, name = c :: run /\ cmatch a c = true
                /\ Forall (fun x => cmatch k x = true) run.

(** Every group of the pattern is a character of [a] and a run of [k]. *)
Fixpoint groups_like (a k : cclass) (r : regex) : Prop :=
  match r with
  | Group r1 => r1 = Cat (Cls a) (Star k)
  | Opt r1 => groups_like a k r1
  | Alt r1 r2 | Cat r1 r2 => groups_like a k r1 /\ groups_like a k r2
  | _ => True
  end.

(** Every match of the pattern goes through a group; every match of the
    pattern takes a character. *)
Fixpoint sets_group (r : regex) : bool :=
  match r with
  | Group _ => true
  | Cat r1 r2 => sets_group r1 || sets_group r2
  | Alt r1 r2 => sets_group r1 && sets_group r2
  | _ => false
  end.

Fixpoint consumes (r : regex) : bool :=
  match r with
  | Chr _ | Cls _ | Plus _ => true
  | Cat r1 r2 => consumes r1 || consumes r2
  | Alt r1 r2 => consumes r1 && consumes r2
  | Group r1 => consumes r1
  | _ => false
  end.

Definition good_cap (a k : cclass) (cap : option str) : Prop :=
  exists name, cap = Some name /\ shaped a k name.

(** A Unicode scalar value: a code point that is no surrogate. *)
Definition scalar (c : N) : Prop := c < 1114112 /\ ~ (55296 <= c < 57344).

(** A world in which the clone succeeds. *)
Definition clone_world : world :=
  {| tmpdir := ["/"; "tmp"]%string;
     tmp_names := ["a1b2c3d4"]%string;
     git_clone :=
       Some [ (["Core"]%string, Dir);
              (["Core"; "Core.php"]%string,
               File (bytes_of "function strlen(string $string): int {}")) ];
     utcnow := "2024-05-01T12:00:00.000000";
     json_dump := fun _ => [] |}.

(** What the walk prints for the file at index [k], counted from one. *)
Definition walk_lines (fs : FS) (total : nat) (k : nat) (php_file : path) : list line :=
  if skipped php_file then []
  else (match read_text fs php_file with None => [Warning php_file] | Some _ => [] end)
       ++ (if (k mod 100 =? 0)%nat then [Processed k total] else []).

Definition warned (out : list line) : list path :=
  omap (fun l => match l with Warning p => Some p | _ => None end) out.

(** ** The run when printing and removing can fail

    The definitions above take every [print] to succeed and [shutil.rmtree]
    to remove all it is given.  The ones below follow the same lines of the
    source with the two as they are: [print] raises [UnicodeEncodeError]
    on a line the standard output cannot encode (a path with a character
    its encoding lacks, the non-ASCII mark of line 235), before it writes
    anything of the line; [shutil.rmtree] raises at an entry it may not
    remove.  [print(..., file=sys.stderr)] of [main] does not raise: the
    standard error stream replaces what it cannot encode. *)

(** What the process cannot choose: the lines its standard output can
    encode, the entries it may remove, and what a [shutil.rmtree] that
    raises has left of the tree (the order of its scan is the file
    system's). *)
Record env := {
  encodes : line -> bool;
  removable : path -> bool;
  leftover : FS -> path -> FS
}.



Definition perfect_env : env :=
  {| encodes := fun _ => true; removable := fun _ => true;
     leftover := fun fs _ => fs |}.

(** [_extract_from_file] (lines 119-151): the [print] of the handler is
    outside any [try]. *)
Definition _extract_from_file_on (ev : env) (fs : FS) (self : PHPStubsExtractor)
    (file_path : path) : (exn + PHPStubsExtractor) * list line :=
  match read_text fs file_path with
  | None =>
      if encodes ev (Warning file_path) then (inr self, [Warning file_path])
      else (inl UnicodeEncodeError, [])
  | Some content => (inr (extract_content content self), [])
  end.

(** The loop of [extract_all] (lines 95-110); what was printed before an
    exception stays printed. *)
Fixpoint walk_on (ev : env) (fs : FS) (total : nat) (php_files : list path) (i : nat)
    (self : PHPStubsExtractor) : (exn + PHPStubsExtractor) * list line :=
  match php_files with
  | [] => (inr self, [])
  | php_file :: rest =>
      if in_skip_dir php_file then walk_on ev fs total rest (S i) self
      else if excluded_extension php_file then walk_on ev fs total rest (S i) self
      else
        match _extract_from_file_on ev fs self php_file with
        | (inl e, out1) => (inl e, out1)
        | (inr self1, out1) =>
            if ((i + 1) mod 100 =? 0)%nat then
              if encodes ev (Processed (i + 1) total) then
                let '(r, out2) := walk_on ev fs total rest (S i) self1 in
                (r, out1 ++ [Processed (i + 1) total] ++ out2)
              else (inl UnicodeEncodeError, out1)
            else
              let '(r, out2) := walk_on ev fs total rest (S i) self1 in
              (r, out1 ++ out2)
        end
  end.

(** [extract_all] (lines 89-117) once [rglob] has listed [php_files]. *)
Definition extract_files_on (ev : env) (fs : FS) (php_files : list path)
    (self : PHPStubsExtractor)
  : (exn + Symbols * PHPStubsExtractor) * list line :=
  if encodes ev (Found (length php_files)) then
    match walk_on ev fs (length php_files) php_files 0 self with
    | (inr self', out) =>
        (inr (symbols_of self', self'), Found (length php_files) :: out)
    | (inl e, out) => (inl e, Found (length php_files) :: out)
    end
  else (inl UnicodeEncodeError, []).

Definition extract_all_on (ev : env) (fs : FS) (self : PHPStubsExtractor)
  : (exn + Symbols * PHPStubsExtractor) * list line :=
  extract_files_on ev fs (rglob fs (stubs_path self)) self.

(** [clone_stubs] (lines 174-187): the [print] comes before the clone. *)
Definition clone_stubs_on (ev : env) (w : world) (target_dir : path) (fs : FS)
  : (exn + path) * FS * list line :=
  if encodes ev (Cloning target_dir) then clone_stubs w target_dir fs
  else (inl UnicodeEncodeError, fs, []).

(** Lines 193-198 of [generate_builtins]. *)
Definition acquire_on (ev : env) (w : world) (stubs_path : option path) (fs : FS)
  : (exn + (path * bool)) * FS * list line :=
  match stubs_path with
  | None =>
      match mkdtemp w fs with
      | inl e => (inl e, fs, [])
      | inr (temp_dir, fs1) =>
          match clone_stubs_on ev w temp_dir fs1 with
          | (inl e, fs2, out) => (inl e, fs2, out)
          | (inr stubs_path, fs2, out) => (inr (stubs_path, true), fs2, out)
          end
      end
  | Some stubs_path => (inr (stubs_path, false), fs, [])
  end.

(** The body of the [try] (lines 201-242): the summary is printed after the
    file is written.  Its six [print]s are one line of the model; the first
    holds the mark and the path, the others digits. *)
Definition try_body_on (ev : env) (w : world) (output_path stubs_path : path) (fs : FS)
  : (exn + Report) * FS * list line :=
  match extract_all_on ev fs (new_extractor stubs_path) with
  | (inl e, out) => (inl e, fs, out)
  | (inr (symbols, _), out) =>
      let output := build_output w symbols in
      match mkdir_parents fs (parent output_path) with
      | inl e => (inl e, fs, out)
      | inr fs1 =>
          match write_file fs1 output_path (json_dump w output) with
          | inl e => (inl e, fs1, out)
          | inr fs2 =>
              if encodes ev (Generated output_path (stats output))
              then (inr output, fs2, out ++ [Generated output_path (stats output)])
              else (inl UnicodeEncodeError, fs2, out)
          end
      end
  end.

(** The entries of the file system at or below a path. *)
Definition subtree (fs : FS) (p : path) : list path :=
  List.filter (fun q => bool_decide (p `prefix_of` q)) (map fst (map_to_list fs)).

(** [shutil.rmtree] with its default [ignore_errors=False]: [OSError]
    stands for the exception of the entry it stops at, a [PermissionError]
    as a rule. *)
Definition rmtree_on (ev : env) (fs : FS) (p : path) : exn + FS :=
  if forallb (removable ev) (subtree fs p) then inr (rmtree fs p)
  else inl OSError.

(** The [finally] (lines 244-247): the exception it raises, if any. *)
Definition finally_on (ev : env) (cleanup_needed : bool) (stubs_path : path) (fs : FS)
  : option exn * FS * list line :=
  if cleanup_needed && exists_ fs stubs_path then
    if encodes ev CleaningUp then
      match rmtree_on ev fs (parent stubs_path) with
      | inr fs' => (None, fs', [CleaningUp])
      | inl e => (Some e, leftover ev fs (parent stubs_path), [CleaningUp])
      end
    else (Some UnicodeEncodeError, fs, [])
  else (None, fs, []).

(** [generate_builtins] (lines 190-247): an exception of the [finally]
    replaces the outcome of the [try]. *)
Definition generate_builtins_on (ev : env) (w : world) (output_path : path)
    (stubs_path : option path) (fs : FS) : (exn + Report) * FS * list line :=
  match acquire_on ev w stubs_path fs with
  | (inl e, fs1, out) => (inl e, fs1, out)
  | (inr (stubs_path, cleanup_needed), fs1, out1) =>
      let '(r, fs2, out2) := try_body_on ev w output_path stubs_path fs1 in
      let '(raised, fs3, out3) := finally_on ev cleanup_needed stubs_path fs2 in
      (match raised with Some e => inl e | None => r end, fs3, out1 ++ out2 ++ out3)
  end.

(** [main] (lines 250-279). *)
Definition main_on (ev : env) (w : world) (output : path) (stubs_path : option path)
    (fs : FS) : nat * FS * list line :=
  match generate_builtins_on ev w output stubs_path fs with
  | (inr _, fs', out) => (0%nat, fs', out)
  | (inl e, fs', out) => (1%nat, fs', out ++ [Error e])
  end.


(** * Properties *)

(** ** Merging *)

Lemma merge_assoc a b c : merge (merge a b) c = merge a (merge b c).
Proof. unfold merge; simpl. by rewrite !(assoc_L (∪)). Qed.

Lemma merge_comm a b : merge a b = merge b a.
Proof.
  unfold merge.
  f_equal; [f_equal; [f_equal|]|]; apply (comm_L (∪)).
Qed.

Lemma merge_idemp a : merge a a = a.
Proof.
  destruct a as [[[f c] m] k]. unfold merge; simpl.
  f_equal; [f_equal; [f_equal|]|]; set_solver.
Qed.

Lemma merge_no_symbols_r a : merge a no_symbols = a.
Proof.
  destruct a as [[[f c] m] k]. unfold merge, no_symbols; simpl.
  f_equal; [f_equal; [f_equal|]|]; set_solver.
Qed.

Lemma merge_absorb a b : merge (merge a b) b = merge a b.
Proof. by rewrite merge_assoc, merge_idemp. Qed.

Lemma merge_all_perm l1 l2 : l1 ≡ₚ l2 -> merge_all l1 = merge_all l2.
Proof.
  induction 1 as [|x l l' _ IH|x y l|l l' l'' _ IH1 _ IH2]; simpl.
  - reflexivity.
  - by rewrite IH.
  - rewrite <- !merge_assoc. by rewrite (merge_comm y x).
  - congruence.
Qed.

(** ** The loops of [_extract_from_file] are unions *)

Lemma add_names_union (accept : str -> bool) (names : list str) (acc : gset str) :
  foldl (fun acc name => if accept name then {[name]} ∪ acc else acc) acc names
  = acc ∪ list_to_set (List.filter accept names).
Proof.
  revert acc. induction names as [|n names IH]; intros acc; simpl.
  - set_solver.
  - rewrite IH. destruct (accept n); simpl; set_solver.
Qed.

Lemma filter_app_std {A} (f : A -> bool) (l1 l2 : list A) :
  List.filter f (l1 ++ l2) = List.filter f l1 ++ List.filter f l2.
Proof. induction l1 as [|x l1 IH]; simpl; [done|]. destruct (f x); simpl; by rewrite IH. Qed.

Lemma add_matches_union (accept : str -> bool) (patterns : list regex)
    (content : str) (acc : gset str) :
  add_matches accept patterns content acc = acc ∪ matched accept patterns content.
Proof.
  unfold add_matches, matched, captures. revert acc.
  induction patterns as [|p ps IH]; intros acc; simpl.
  - set_solver.
  - rewrite IH, add_names_union, filter_app_std, list_to_set_app_L. set_solver.
Qed.

Lemma functions_extract_content (content : str) self :
  functions (extract_content content self)
  = functions self ∪ matched _is_valid_function_name FUNCTION_PATTERNS content.
Proof. apply add_matches_union. Qed.

Lemma classes_extract_content (content : str) self :
  classes (extract_content content self)
  = classes self ∪ matched (fun _ => true) CLASS_PATTERNS content.
Proof. apply add_matches_union. Qed.

Lemma methods_extract_content (content : str) self :
  methods (extract_content content self)
  = methods self ∪ matched _is_valid_function_name METHOD_PATTERNS content.
Proof. apply add_matches_union. Qed.

Lemma constants_extract_content (content : str) self :
  constants (extract_content content self)
  = constants self ∪ matched (fun _ => true) CONSTANT_PATTERNS content.
Proof. apply add_matches_union. Qed.

Lemma aggregate_extract_content (content : str) self :
  aggregate (extract_content content self)
  = merge (aggregate self) (content_symbols content).
Proof.
  unfold aggregate, merge, content_symbols. cbn [fst snd].
  by rewrite functions_extract_content, classes_extract_content,
    methods_extract_content, constants_extract_content.
Qed.

Lemma extractor_eq (a b : PHPStubsExtractor) :
  stubs_path a = stubs_path b -> aggregate a = aggregate b -> a = b.
Proof.
  destruct a, b; unfold aggregate; simpl. intros -> H. by simplify_eq.
Qed.

Lemma stubs_path_extract_content (content : str) self :
  stubs_path (extract_content content self) = stubs_path self.
Proof. reflexivity. Qed.

Lemma walk_cons fs total php_file rest i self :
  walk fs total (php_file :: rest) i self =
  if skipped php_file then walk fs total rest (S i) self
  else
    let '(self1, out1) := _extract_from_file fs self php_file in
    let progress :=
      if ((i + 1) mod 100 =? 0)%nat then [Processed (i + 1) total] else [] in
    let '(self2, out2) := walk fs total rest (S i) self1 in
    (self2, out1 ++ progress ++ out2).
Proof.
  unfold skipped. cbn [walk].
  destruct (in_skip_dir php_file); [done|].
  by destruct (excluded_extension php_file).
Qed.

Lemma aggregate_extract_from_file fs self p :
  skipped p = false ->
  aggregate (_extract_from_file fs self p).1 = merge (aggregate self) (file_symbols fs p).
Proof.
  intros Hs. unfold _extract_from_file, file_symbols. rewrite Hs.
  destruct (read_text fs p); simpl.
  - apply aggregate_extract_content.
  - by rewrite merge_no_symbols_r.
Qed.

Lemma aggregate_walk fs total php_files i self :
  aggregate (walk fs total php_files i self).1
  = merge (aggregate self) (merge_all (map (file_symbols fs) php_files)).
Proof.
  revert i self. induction php_files as [|p rest IH]; intros i self.
  - simpl. by rewrite merge_no_symbols_r.
  - rewrite walk_cons. simpl. destruct (skipped p) eqn:Hs.
    + rewrite IH. unfold file_symbols at 2. rewrite Hs.
      by rewrite (merge_comm no_symbols), merge_no_symbols_r.
    + pose proof (aggregate_extract_from_file fs self p Hs) as H1.
      destruct (_extract_from_file fs self p) as [self1 out1]. simpl in H1.
      specialize (IH (S i) self1).
      destruct (walk fs total rest (S i) self1) as [self2 out2]. simpl in *.
      by rewrite IH, H1, merge_assoc.
Qed.

Lemma stubs_path_walk fs total php_files i self :
  stubs_path (walk fs total php_files i self).1 = stubs_path self.
Proof.
  revert i self. induction php_files as [|p rest IH]; intros i self; [done|].
  rewrite walk_cons. destruct (skipped p); [apply IH|].
  unfold _extract_from_file.
  destruct (read_text fs p) as [content|].
  - specialize (IH (S i) (extract_content content self)).
    destruct (walk fs total rest (S i) (extract_content content self)). simpl in *.
    by rewrite IH.
  - specialize (IH (S i) self).
    by destruct (walk fs total rest (S i) self).
Qed.

(** ** The order of [sorted] *)

Lemma str_leb_refl x : str_leb x x = true.
Proof.
  induction x as [|a x IH]; simpl; [done|].
  rewrite N.eqb_refl, IH. by rewrite orb_true_r.
Qed.

Lemma str_leb_cons a x b y :
  str_leb (a :: x) (b :: y) = true <-> a < b \/ a = b /\ str_leb x y = true.
Proof.
  simpl. rewrite orb_true_iff, andb_true_iff, N.ltb_lt, N.eqb_eq. tauto.
Qed.

Lemma str_le_trans : Transitive str_le.
Proof.
  unfold str_le. intros x. induction x as [|a x IH]; intros y z Hxy Hyz.
  - done.
  - destruct y as [|b y]; [done|]. destruct z as [|c z]; [done|].
    apply str_leb_cons in Hxy, Hyz. apply str_leb_cons.
    destruct Hxy as [?|[-> Hxy]], Hyz as [?|[-> Hyz]]; eauto with lia.
Qed.

Lemma str_le_total : Total str_le.
Proof.
  unfold str_le. intros x. induction x as [|a x IH]; intros y.
  - by left.
  - destruct y as [|b y]; [by right|].
    rewrite !str_leb_cons.
    destruct (N.lt_trichotomy a b) as [?|[->|?]]; [tauto| |tauto].
    destruct (IH y); tauto.
Qed.

Lemma str_le_antisym : AntiSymm (=) str_le.
Proof.
  unfold str_le. intros x. induction x as [|a x IH]; intros y Hxy Hyx.
  - by destruct y.
  - destruct y as [|b y]; [done|].
    apply str_leb_cons in Hxy, Hyx.
    destruct Hxy as [?|[-> Hxy]], Hyx as [?|[? Hyx]]; try lia.
    f_equal. by apply IH.
Qed.

Lemma sorted_perm (s : gset str) : sorted s ≡ₚ elements s.
Proof. apply merge_sort_Permutation. Qed.

Lemma sorted_ascending (s : gset str) : ascending (sorted s).
Proof.
  split.
  - apply (@StronglySorted_merge_sort _ str_le _ str_le_trans str_le_total).
  - rewrite sorted_perm. apply NoDup_elements.
Qed.

Lemma elem_of_sorted (s : gset str) name : name ∈ sorted s <-> name ∈ s.
Proof. by rewrite sorted_perm, elem_of_elements. Qed.

Lemma length_sorted (s : gset str) : length (sorted s) = size s.
Proof. by rewrite sorted_perm. Qed.

Lemma list_to_set_sorted (s : gset str) : list_to_set (sorted s) = s.
Proof. apply set_eq. intros x. by rewrite elem_of_list_to_set, elem_of_sorted. Qed.

(** ** Runs that produce a report *)

Lemma extract_files_spec fs php_files self :
  let '(syms, self', _) := extract_files fs php_files self in
  syms = symbols_of self' /\
  stubs_path self' = stubs_path self /\
  aggregate self'
  = merge (aggregate self) (merge_all (map (file_symbols fs) php_files)).
Proof.
  unfold extract_files.
  pose proof (aggregate_walk fs (length php_files) php_files 0 self) as Ha.
  pose proof (stubs_path_walk fs (length php_files) php_files 0 self) as Hp.
  destruct (walk fs (length php_files) php_files 0 self) as [self' out].
  by simpl in *.
Qed.

Lemma generate_builtins_report w output_path stubs_arg fs report fs' out :
  generate_builtins w output_path stubs_arg fs = (inr report, fs', out) ->
  exists root fs1,
    report = build_output w (extract_all fs1 (new_extractor root)).1.1.
Proof.
  unfold generate_builtins.
  destruct (acquire w stubs_arg fs) as [[[e|[root cleanup]] fs1] out1]; [done|].
  unfold try_body.
  destruct (extract_all fs1 (new_extractor root)) as [[syms self'] out2] eqn:He.
  destruct (mkdir_parents fs1 (parent output_path)) as [e|fs2].
  { destruct (finally_ cleanup root fs1). done. }
  destruct (write_file fs2 output_path (json_dump w (build_output w syms))) as [e|fs3].
  { destruct (finally_ cleanup root fs2). done. }
  destruct (finally_ cleanup root fs3). intros [= <- _ _].
  exists root, fs1. by rewrite He.
Qed.

(** ** The order of the files *)

Lemma extract_files_perm (fs : FS) (php_files php_files' : list path)
    (self : PHPStubsExtractor) :
  php_files ≡ₚ php_files' ->
  (extract_files fs php_files self).1.2 = (extract_files fs php_files' self).1.2 /\
  (extract_files fs php_files self).1.1 = (extract_files fs php_files' self).1.1.
Proof.
  intros Hperm.
  pose proof (extract_files_spec fs php_files self) as H1.
  pose proof (extract_files_spec fs php_files' self) as H2.
  destruct (extract_files fs php_files self) as [[syms1 self1] out1].
  destruct (extract_files fs php_files' self) as [[syms2 self2] out2].
  destruct H1 as (-> & Hp1 & Ha1), H2 as (-> & Hp2 & Ha2). simpl.
  assert (Ha : aggregate self1 = aggregate self2).
  { rewrite Ha1, Ha2. f_equal. apply merge_all_perm. by apply fmap_Permutation. }
  assert (self1 = self2) as -> by (apply extractor_eq; congruence).
  done.
Qed.

(** ** Skipped directories *)

Lemma in_skip_dir_spec (php_file : path) :
  in_skip_dir php_file = true <-> exists seg, seg ∈ php_file /\ seg ∈ SKIP_DIRS.
Proof.
  unfold in_skip_dir. rewrite existsb_exists. split.
  - intros (skip & Hin & Hb). apply bool_decide_eq_true in Hb.
    exists skip. split; [done|]. by apply list_elem_of_In.
  - intros (seg & Hseg & Hskip). exists seg. split.
    + by apply list_elem_of_In.
    + by apply bool_decide_eq_true.
Qed.

Lemma excluded_extension_never (php_file : path) : excluded_extension php_file = false.
Proof. reflexivity. Qed.

Example skip_is_not_substring :
  skipped (in_stubs ["mytests"; "m.php"]%string) = false /\
  skipped (in_stubs ["tests.php"]%string) = false /\
  skipped (in_stubs ["Tests"; "t.php"]%string) = false /\
  skipped (in_stubs ["tests"; "t.php"]%string) = true /\
  skipped (in_stubs ["a"; ".git"; "b"; "t.php"]%string) = true.
Proof. repeat split; reflexivity. Qed.

(** ** The name filter *)

Lemma keywords_lower : Forall (fun kw => lower kw = kw) keywords.
Proof. unfold keywords. simpl map. repeat (constructor; [reflexivity|]). constructor. Qed.

Lemma matched_elem (accept : str -> bool) (patterns : list regex) (content name : str) :
  name ∈ matched accept patterns content
  <-> name ∈ captures patterns content /\ accept name = true.
Proof.
  unfold matched. rewrite elem_of_list_to_set, list_elem_of_In, filter_In.
  by rewrite <- list_elem_of_In.
Qed.

Example filter_examples :
  _is_valid_function_name (pystr "if") = false /\
  _is_valid_function_name (pystr "If") = false /\
  _is_valid_function_name (pystr "RETURN") = false /\
  _is_valid_function_name (pystr "x") = false /\
  _is_valid_function_name (pystr "fo") = true /\
  _is_valid_function_name (pystr "iff") = true.
Proof. repeat split; vm_compute; reflexivity. Qed.

(** ** The file system under a run *)

Lemma parent_prefix (p : path) : parent p `prefix_of` p.
Proof.
  unfold parent. destruct (decide (p = ["/"%string])); [done|].
  destruct (decide (p = [])) as [->|Hne]; [done|].
  exists [List.last p ""%string]. by apply app_removelast_last.
Qed.

Lemma rmtree_lookup_under (fs : FS) (p q : path) :
  p `prefix_of` q -> rmtree fs p !! q = None.
Proof.
  intros Hpre. unfold rmtree. apply map_lookup_filter_None. right.
  intros x _ Hnot. by apply Hnot.
Qed.

Lemma exists_false (fs : FS) (p : path) : exists_ fs p = false -> fs !! p = None.
Proof.
  unfold exists_. intros H. apply bool_decide_eq_false in H.
  by apply eq_None_not_Some.
Qed.

Lemma finally_removes (stubs_path : path) (fs : FS) :
  (finally_ true stubs_path fs).1 !! stubs_path = None.
Proof.
  unfold finally_. simpl. destruct (exists_ fs stubs_path) eqn:He; simpl.
  - apply rmtree_lookup_under, parent_prefix.
  - by apply exists_false.
Qed.

Lemma mkdtemp_fresh (w : world) (fs : FS) (d : path) (fs1 : FS) :
  mkdtemp w fs = inr (d, fs1) ->
  fs !! d = None /\ fs1 = <[d := Dir]> fs /\ parent d `prefix_of` d.
Proof.
  unfold mkdtemp. destruct (is_dir fs (tmpdir w)); [|done].
  destruct (find _ (tmp_names w)) as [n|] eqn:Hfind; [|done].
  intros [= <- <-]. apply find_some in Hfind as [_ Hfree].
  apply negb_true_iff, exists_false in Hfree.
  split; [done|]. split; [done|]. apply parent_prefix.
Qed.

(** Once the clone has succeeded, the [finally] removes the scratch
    directory however the rest of the run ends. *)
Lemma scratch_removed_after_clone (w : world) (output_path : path) (fs : FS)
    (d : path) (fs1 : FS) (tree : list (path * node)) :
  mkdtemp w fs = inr (d, fs1) -> git_clone w = Some tree ->
  (generate_builtins w output_path None fs).1.2 !! d = None.
Proof.
  intros Hmk Hclone. unfold generate_builtins, acquire, clone_stubs.
  rewrite Hmk, Hclone.
  destruct (try_body w output_path d (populate d tree fs1)) as [[r fs2] out2].
  pose proof (finally_removes d fs2) as Hfin.
  by destruct (finally_ true d fs2) as [fs3 out3].
Qed.

Lemma foldr_insert_is_Some (fs : FS) (f : nat -> path) (l : list nat) (q : path) :
  is_Some (fs !! q) -> is_Some (foldr (fun k m => <[f k := Dir]> m) fs l !! q).
Proof.
  intros Hq. induction l as [|k l IH]; simpl; [done|].
  apply lookup_insert_is_Some. destruct (decide (f k = q)); auto.
Qed.

Lemma try_body_keeps (w : world) (output_path root : path) (fs : FS) (q : path) :
  is_Some (fs !! q) -> is_Some ((try_body w output_path root fs).1.2 !! q).
Proof.
  intros Hq. unfold try_body.
  destruct (extract_all fs (new_extractor root)) as [[syms self'] out].
  unfold mkdir_parents.
  destruct (_ && _); [done|]. destruct (forallb _ _); [|done].
  unfold write_file.
  match goal with |- context [foldr ?f fs ?l] => set (fs1 := foldr f fs l) end.
  assert (H1 : is_Some (fs1 !! q)) by by apply foldr_insert_is_Some.
  destruct (_ || _); [done|].
  destruct (fs1 !! output_path) as [[| |]|]; simpl; try done;
    apply lookup_insert_is_Some; destruct (decide (output_path = q)); auto.
Qed.

(** ** Files that cannot be read, and bytes that cannot be decoded *)





(** ** The matcher on the function and method patterns *)

Section Matcher.
Context {A : Type}.
Implicit Types (K : bool -> str -> option str -> option A).

Lemma star_bol k b1 b2 s (K : bool -> str -> option A) :
  (forall b b' s', K b s' = K b' s') -> star k b1 s K = star k b2 s K.
Proof.
  intros HK. destruct s as [|c s]; simpl; [apply HK|].
  destruct (cmatch k c); [|apply HK].
  destruct (star k (after c) s K); [done|apply HK].
Qed.

Lemma exec_bol r : forall K b1 b2 s cap,
  bol_free r = true -> insens K -> exec r b1 s cap K = exec r b2 s cap K.
Proof.
  induction r as [| |c|k|k|k|r IH|r1 IH1 r2 IH2|r1 IH1 r2 IH2|r IH];
    intros K b1 b2 s cap Hfree HK; simpl in *; try done.
  - apply star_bol. intros. apply HK.
  - rewrite (IH K b1 b2) by done. destruct (exec r b2 s cap K); [done|apply HK].
  - apply andb_true_iff in Hfree as [H1 H2].
    rewrite (IH1 K b1 b2), (IH2 K b1 b2) by done. done.
  - apply andb_true_iff in Hfree as [H1 H2].
    apply IH1; [done|]. intros ????. by apply IH2.
  - apply IH; [done|]. intros ????. apply HK.
Qed.

(** A greedy star ends at the longest run when the rest of the pattern,
    failing there, fails after every shorter run too. *)
Lemma star_greedy k b s (K : bool -> str -> option A) :
  (forall b b' s', K b s' = K b' s') ->
  (forall c s', cmatch k c = true -> K b (skip k s') = None -> K b (c :: s') = None) ->
  star k b s K = K b (skip k s).
Proof.
  intros HK Hrej. induction s as [|c s IH]; simpl; [done|].
  destruct (cmatch k c) eqn:Hc; [|done].
  rewrite (star_bol k (after c) b) by exact HK. rewrite IH.
  destruct (K b (skip k s)) eqn:HKs; [done|]. by apply Hrej.
Qed.

Lemma exec_lit l : forall K b s cap,
  insens K ->
  exec (cat (map Chr l)) b s cap K
  = match strip l s with Some s' => K b s' cap | None => None end.
Proof.
  induction l as [|a l IH]; intros K b s cap HK; simpl; [done|].
  destruct s as [|c s]; [done|]. destruct (c =? a); [|done].
  rewrite IH by done. destruct (strip l s); [apply HK|done].
Qed.

(** Without a group in it, a pattern hands the capture on as it got it. *)
Lemma star_result k b s (K : bool -> str -> option A) res :
  star k b s K = Some res -> exists b' s', K b' s' = Some res.
Proof.
  revert b. induction s as [|c s IH]; intros b; simpl; [eauto|].
  destruct (cmatch k c); [|eauto].
  destruct (star k (after c) s K) eqn:Hs; [|eauto].
  intros [= <-]. eauto.
Qed.

Lemma exec_result r : forall K b s cap res,
  group_free r = true -> exec r b s cap K = Some res ->
  exists b' s', K b' s' cap = Some res.
Proof.
  induction r as [| |c|k|k|k|r IH|r1 IH1 r2 IH2|r1 IH1 r2 IH2|r IH];
    intros K b s cap res Hfree Hex; simpl in *; try done.
  - eauto.
  - destruct b; [eauto|done].
  - destruct s as [|x s]; [done|]. destruct (x =? c); [eauto|done].
  - destruct s as [|x s]; [done|]. destruct (cmatch k x); [eauto|done].
  - by apply star_result in Hex.
  - destruct s as [|x s]; [done|]. destruct (cmatch k x); [|done].
    by apply star_result in Hex.
  - destruct (exec r b s cap K) eqn:H1; [|eauto].
    injection Hex as ->. eauto.
  - apply andb_true_iff in Hfree as [H1 H2].
    destruct (exec r1 b s cap K) eqn:Hr1.
    + injection Hex as ->. eauto.
    + eauto.
  - apply andb_true_iff in Hfree as [H1 H2].
    apply IH1 in Hex as (b' & s' & Hex); [|done]. eauto.
Qed.

Lemma exec_insens r K :
  bol_free r = true -> insens K -> insens (fun b s cap => exec r b s cap K).
Proof. intros Hr HK b1 b2 s cap. by apply exec_bol. Qed.

Lemma exec_cat r1 r2 b s cap K :
  exec (Cat r1 r2) b s cap K
  = exec r1 b s cap (fun b' s' cap' => exec r2 b' s' cap' K).
Proof. reflexivity. Qed.

Lemma exec_group r b s cap K :
  exec (Group r) b s cap K
  = exec r b s cap (fun b' s' _ => K b' s' (Some (take (length s - length s') s))).
Proof. reflexivity. Qed.

Lemma exec_opt r b s cap K :
  exec (Opt r) b s cap K
  = match exec r b s cap K with Some x => Some x | None => K b s cap end.
Proof. reflexivity. Qed.

Lemma exec_alt r1 r2 b s cap K :
  exec (Alt r1 r2) b s cap K
  = match exec r1 b s cap K with Some x => Some x | None => exec r2 b s cap K end.
Proof. reflexivity. Qed.

Lemma exec_at_bol b s cap K :
  exec Bol b s cap K = if b then K b s cap else None.
Proof. reflexivity. Qed.

Lemma exec_chr c b s cap K :
  exec (Chr c) b s cap K
  = match s with
    | x :: s' => if x =? c then K (after x) s' cap else None
    | [] => None
    end.
Proof. reflexivity. Qed.

Lemma exec_cls k b s cap K :
  exec (Cls k) b s cap K
  = match s with
    | x :: s' => if cmatch k x then K (after x) s' cap else None
    | [] => None
    end.
Proof. reflexivity. Qed.

Lemma exec_star_greedy k b s cap K :
  insens K ->
  (forall c s', cmatch k c = true ->
                K b (skip k s') cap = None -> K b (c :: s') cap = None) ->
  exec (Star k) b s cap K = K b (skip k s) cap.
Proof.
  intros HK Hrej. simpl. apply (star_greedy k b s (fun b' s' => K b' s' cap)).
  - intros. apply HK.
  - exact Hrej.
Qed.

Lemma exec_plus_greedy k b s cap K :
  insens K ->
  (forall c s', cmatch k c = true ->
                K b (skip k s') cap = None -> K b (c :: s') cap = None) ->
  exec (Plus k) b s cap K
  = match s with
    | x :: s' => if cmatch k x then K b (skip k s') cap else None
    | [] => None
    end.
Proof.
  intros HK Hrej. simpl. destruct s as [|x s]; [done|].
  destruct (cmatch k x); [|done].
  rewrite (star_bol k (after x) b) by (intros; apply HK).
  apply (star_greedy k b s (fun b' s' => K b' s' cap)).
  - intros. apply HK.
  - exact Hrej.
Qed.

End Matcher.

(** Character classes that never meet. *)
Lemma space_range c : is_space c = true -> c <= 32 \/ 133 <= c.
Proof.
  unfold is_space. rewrite !orb_true_iff, !andb_true_iff, !N.leb_le, !N.eqb_eq. lia.
Qed.

Lemma word_range c : cmatch c_az_AZ_09_us c = true -> 48 <= c <= 122.
Proof.
  unfold cmatch, c_az_AZ_09_us, in_range. simpl.
  rewrite !orb_true_iff, !andb_true_iff, !N.leb_le. lia.
Qed.

Lemma word_start c : cmatch c_az_AZ_us c = true -> cmatch c_az_AZ_09_us c = true.
Proof.
  unfold cmatch, c_az_AZ_us, c_az_AZ_09_us, in_range. simpl.
  rewrite !orb_true_iff, !andb_true_iff, !N.leb_le. lia.
Qed.

Lemma space_not_word c : is_space c = true -> cmatch c_az_AZ_09_us c = false.
Proof.
  intros Hs. destruct (cmatch c_az_AZ_09_us c) eqn:Hw; [|done].
  apply space_range in Hs. apply word_range in Hw. lia.
Qed.

Lemma space_not_start c : is_space c = true -> cmatch c_az_AZ_us c = false.
Proof.
  intros Hs. destruct (cmatch c_az_AZ_us c) eqn:Hw; [|done].
  apply word_start in Hw. by rewrite space_not_word in Hw.
Qed.

(** A character from 33 to 132 is no white space. *)
Lemma graphic_not_space c : 33 <= c <= 132 -> is_space c = false.
Proof.
  intros Hc. destruct (is_space c) eqn:Hs; [|done]. apply space_range in Hs. lia.
Qed.

Lemma eqb_space c a : 33 <= a <= 132 -> is_space c = true -> (c =? a) = false.
Proof.
  intros Ha Hs. apply N.eqb_neq. intros ->. by rewrite graphic_not_space in Hs.
Qed.

Lemma skip_not_head k s c s' : skip k s = c :: s' -> cmatch k c = false.
Proof.
  induction s as [|x s IH]; simpl; [done|].
  destruct (cmatch k x) eqn:Hx; [done|]. by intros [= -> ->].
Qed.

Lemma skip_idem k s : skip k (skip k s) = skip k s.
Proof.
  destruct (skip k s) as [|c s'] eqn:Hs; [done|].
  simpl. by rewrite (skip_not_head k s c s').
Qed.

Lemma skip_fixed k c s : cmatch k c = false -> skip k (c :: s) = c :: s.
Proof. intros H. simpl. by rewrite H. Qed.

Lemma skip_length k s : (length (skip k s) <= length s)%nat.
Proof. induction s as [|c s IH]; simpl; [done|]. destruct (cmatch k c); simpl; lia. Qed.

Lemma strip_length l s s' : strip l s = Some s' -> length s = (length l + length s')%nat.
Proof.
  revert s. induction l as [|a l IH]; intros s; simpl; [by intros [= ->]|].
  destruct s as [|c s]; [done|]. destruct (c =? a); [|done].
  intros H. apply IH in H. simpl. lia.
Qed.

Lemma name_rejects_space {A} (X : regex) (K : bool -> str -> option str -> option A)
    b c s cap :
  is_space c = true -> exec (Cat g_name X) b (c :: s) cap K = None.
Proof.
  intros Hc. unfold g_name. rewrite !exec_cat, exec_group, exec_cat, exec_cls.
  by rewrite (space_not_start c).
Qed.

Lemma lparen_rejects {A} (R : regex) (K : bool -> str -> option str -> option A)
    b c s cap :
  (c =? LPAREN) = false -> exec (Cat (Chr LPAREN) R) b (c :: s) cap K = None.
Proof. intros Hc. rewrite exec_cat, exec_chr. by rewrite Hc. Qed.

Lemma word_not_lparen c : cmatch c_az_AZ_09_us c = true -> (c =? LPAREN) = false.
Proof. intros Hc. apply word_range in Hc. apply N.eqb_neq. unfold LPAREN. lia. Qed.

Lemma word_not_space c : cmatch c_az_AZ_09_us c = true -> is_space c = false.
Proof. intros Hc. apply word_range in Hc. apply graphic_not_space. lia. Qed.

Lemma space_not_lparen c : is_space c = true -> (c =? LPAREN) = false.
Proof. intros Hc. apply eqb_space; [|done]. unfold LPAREN. lia. Qed.

Lemma space_lparen_rejects_word {A} (R : regex)
    (K : bool -> str -> option str -> option A) b c s cap :
  cmatch c_az_AZ_09_us c = true ->
  exec (Cat (Star Space) (Cat (Chr LPAREN) R)) b (c :: s) cap K = None.
Proof.
  intros Hc. rewrite exec_cat. cbn [exec star].
  change (cmatch Space c) with (is_space c). rewrite (word_not_space c Hc).
  by rewrite (word_not_lparen c Hc).
Qed.

Lemma fn_tail_exec {A} (R : regex) (K : bool -> str -> option str -> option A) b s cap :
  bol_free R = true -> insens K ->
  exec (fn_tail_re R) b s cap K
  = match fn_tail s with
    | Some (name, rest) => exec R b rest (Some name) K
    | None => None
    end.
Proof.
  intros HR HK. unfold fn_tail_re, fn_tail.
  assert (HKR : insens (fun b s cap => exec (Cat (Chr LPAREN) R) b s cap K)).
  { apply exec_insens; [by simpl|done]. }
  rewrite exec_cat. unfold lit. rewrite exec_lit
    by (apply exec_insens; [simpl; by rewrite ?HR|done]).
  destruct (strip (pystr "function") s) as [[|c s2]|]; [done| |done].
  rewrite exec_cat, exec_plus_greedy.
  2:{ apply exec_insens; [simpl; by rewrite ?HR|done]. }
  2:{ intros x s' Hx _. by apply name_rejects_space. }
  change (cmatch Space c) with (is_space c). destruct (is_space c); [|done].
  destruct (skip Space s2) as [|c3 s4] eqn:Hs3;
    [unfold g_name; by rewrite exec_cat, exec_group, exec_cat, exec_cls|].
  unfold g_name. rewrite exec_cat, exec_group, exec_cat, exec_cls.
  destruct (cmatch c_az_AZ_us c3) eqn:Hc3; [|done].
  rewrite exec_star_greedy.
  2:{ intros b1 b2 s' cap'.
      apply (exec_bol (Cat (Star Space) (Cat (Chr LPAREN) R)) K);
        [simpl; by rewrite ?HR|done]. }
  2:{ intros x s' Hx _. by apply space_lparen_rejects_word. }
  rewrite exec_cat, exec_star_greedy.
  2:{ exact HKR. }
  2:{ intros x s' Hx _. by apply lparen_rejects, space_not_lparen. }
  cbn [length].
  destruct (skip Space (skip c_az_AZ_09_us s4)) as [|c6 s7];
    [by rewrite exec_cat, exec_chr|].
  rewrite exec_cat, exec_chr. destruct (c6 =? LPAREN); [|done].
  by apply exec_bol.
Qed.

Lemma word_function : pystr "function" = [102; 117; 110; 99; 116; 105; 111; 110].
Proof. reflexivity. Qed.

Lemma fn_tail_space c s : is_space c = true -> fn_tail (c :: s) = None.
Proof.
  intros Hc. unfold fn_tail. rewrite word_function. cbn [strip].
  by rewrite (eqb_space c 102).
Qed.

Lemma fn_tail_head s name rest :
  fn_tail s = Some (name, rest) -> exists s', s = 102 :: s'.
Proof.
  unfold fn_tail. rewrite word_function. destruct s as [|c s]; [done|].
  cbn [strip]. destruct (c =? 102) eqn:Hc; [|done]. apply N.eqb_eq in Hc as ->. eauto.
Qed.

Lemma fn_tail_shorter s name rest :
  fn_tail s = Some (name, rest) -> (length rest < length s)%nat.
Proof.
  unfold fn_tail.
  destruct (strip (pystr "function") s) as [[|c s2]|] eqn:Hstrip; try done.
  apply strip_length in Hstrip. destruct (is_space c); [|done].
  destruct (skip Space s2) as [|c3 s4] eqn:H3; [done|].
  destruct (cmatch c_az_AZ_us c3); [|done].
  destruct (skip Space (skip c_az_AZ_09_us s4)) as [|c6 s7] eqn:H6; [done|].
  destruct (c6 =? LPAREN); [|done]. intros [= _ <-].
  pose proof (skip_length Space s2). pose proof (skip_length Space (skip c_az_AZ_09_us s4)).
  pose proof (skip_length c_az_AZ_09_us s4).
  rewrite H3 in *. rewrite H6 in *. simpl in *. lia.
Qed.

Lemma final_insens : insens final.
Proof. done. Qed.

(** The function patterns, read from the start of a line. *)
Lemma function_pattern_exec (R : regex) b s :
  bol_free R = true ->
  match_at (Cat Bol (Cat (Star Space) (fn_tail_re R))) b s
  = if b then
      match fn_tail (skip Space s) with
      | Some (name, rest) => exec R b rest (Some name) final
      | None => None
      end
    else None.
Proof.
  intros HR. unfold match_at. fold final. rewrite exec_cat, exec_at_bol.
  destruct b; [|done]. rewrite exec_cat, exec_star_greedy.
  - by apply fn_tail_exec.
  - apply exec_insens; [simpl; by rewrite ?HR|done].
  - intros c s' Hc _. rewrite fn_tail_exec by done. by rewrite fn_tail_space.
Qed.

Lemma FUNCTION_PATTERNS_eq : FUNCTION_PATTERNS = [F1; F2].
Proof. reflexivity. Qed.

Lemma function_match pattern b s name rest :
  pattern ∈ FUNCTION_PATTERNS -> match_at pattern b s = Some (name, rest) ->
  b = true /\ fstart s name.
Proof.
  rewrite FUNCTION_PATTERNS_eq. intros Hin Hm.
  assert (pattern = F1 \/ pattern = F2) as [-> | ->] by set_solver.
  - unfold F1 in Hm. rewrite function_pattern_exec in Hm by done.
    destruct b; [|done]. split; [done|].
    unfold fstart. destruct (fn_tail (skip Space s)) as [[n r]|]; [|done].
    simpl in Hm. injection Hm as -> ->. eauto.
  - unfold F2 in Hm. rewrite function_pattern_exec in Hm by done.
    destruct b; [|done]. split; [done|].
    unfold fstart. destruct (fn_tail (skip Space s)) as [[n r]|]; [|done].
    apply exec_result in Hm as (b' & s' & Hm); [|done].
    injection Hm as -> _. eauto.
Qed.

Lemma METHOD_PATTERNS_eq : METHOD_PATTERNS = [M1].
Proof. reflexivity. Qed.

Lemma fn_tail_exec_lift {A} (K : bool -> str -> option str -> option A) b s cap :
  insens K -> exec (fn_tail_re Eps) b s cap K = lift K b (fn_tail s).
Proof.
  intros HK. rewrite fn_tail_exec by done. unfold lift.
  by destruct (fn_tail s) as [[n r]|].
Qed.

Lemma word_static : pystr "static" = [115; 116; 97; 116; 105; 99].
Proof. reflexivity. Qed.
Lemma word_public : pystr "public" = [112; 117; 98; 108; 105; 99].
Proof. reflexivity. Qed.
Lemma word_protected : pystr "protected" = [112; 114; 111; 116; 101; 99; 116; 101; 100].
Proof. reflexivity. Qed.
Lemma word_private : pystr "private" = [112; 114; 105; 118; 97; 116; 101].
Proof. reflexivity. Qed.

Lemma fn_tail_not_f c s : c <> 102 -> fn_tail (c :: s) = None.
Proof.
  intros Hc. unfold fn_tail. rewrite word_function. cbn [strip].
  by apply N.eqb_neq in Hc as ->.
Qed.

Lemma static_tail_other c s : c <> 102 -> c <> 115 -> static_tail (c :: s) = None.
Proof.
  intros Hf Hs. unfold static_tail. rewrite word_static. cbn [strip].
  apply N.eqb_neq in Hs as ->. by apply fn_tail_not_f.
Qed.

Lemma static_tail_space c s : is_space c = true -> static_tail (c :: s) = None.
Proof.
  intros Hc. apply static_tail_other; intros ->; by rewrite graphic_not_space in Hc.
Qed.

Lemma strip_head a l s s' : strip (a :: l) s = Some s' -> exists t, s = a :: t.
Proof.
  simpl. destruct s as [|c s]; [done|]. destruct (c =? a) eqn:Hc; [|done].
  apply N.eqb_eq in Hc as ->. eauto.
Qed.

Lemma strip_visibility_head s s' : strip_visibility s = Some s' -> exists t, s = 112 :: t.
Proof.
  unfold strip_visibility. rewrite word_public, word_protected, word_private.
  destruct (strip [112; 117; 98; 108; 105; 99] s) eqn:H1;
    [intros _; exact (strip_head _ _ _ _ H1)|].
  destruct (strip [112; 114; 111; 116; 101; 99; 116; 101; 100] s) eqn:H2;
    [intros _; exact (strip_head _ _ _ _ H2)|].
  intros H3. exact (strip_head _ _ _ _ H3).
Qed.

Lemma strip_visibility_other c s : c <> 112 -> strip_visibility (c :: s) = None.
Proof.
  intros Hc. destruct (strip_visibility (c :: s)) eqn:H; [|done].
  apply strip_visibility_head in H as [t [= -> _]]. done.
Qed.

Lemma static_exec {A} (K : bool -> str -> option str -> option A) b s cap :
  insens K ->
  exec (Cat (Opt (Cat (lit "static") (Cat (Plus Space) Eps))) (fn_tail_re Eps)) b s cap K
  = lift K b (static_tail s).
Proof.
  intros HK. rewrite exec_cat, exec_opt, exec_cat. unfold lit at 1.
  rewrite exec_lit by (apply exec_insens; [done|]; by apply exec_insens).
  unfold static_tail.
  destruct (strip (pystr "static") s) as [s1|] eqn:Hstrip.
  - assert (Hs : fn_tail s = None).
    { rewrite word_static in Hstrip. apply strip_head in Hstrip as [t ->].
      by apply fn_tail_not_f. }
    rewrite exec_cat, exec_plus_greedy.
    2:{ apply exec_insens; [done|]. by apply exec_insens. }
    2:{ intros c s' Hc _. cbn [exec]. rewrite fn_tail_exec_lift by done.
        by rewrite fn_tail_space. }
    destruct s1 as [|c s2].
    { rewrite fn_tail_exec_lift by done. by rewrite Hs. }
    change (cmatch Space c) with (is_space c). destruct (is_space c).
    + cbn [exec]. rewrite !fn_tail_exec_lift by done. rewrite Hs.
      by destruct (lift K b (fn_tail (skip Space s2))).
    + rewrite fn_tail_exec_lift by done. by rewrite Hs.
  - by apply fn_tail_exec_lift.
Qed.

Lemma method_rest_exec {A} (K : bool -> str -> option str -> option A) b s cap :
  insens K -> exec method_rest b s cap K = lift K b (static_tail (skip Space s)).
Proof.
  intros HK. unfold method_rest. rewrite exec_cat, exec_star_greedy.
  - by apply static_exec.
  - by apply exec_insens.
  - intros c s' Hc _. rewrite static_exec by done. by rewrite static_tail_space.
Qed.

Lemma static_tail_after_p s : static_tail (skip Space (112 :: s)) = None.
Proof. rewrite skip_fixed by done. by apply static_tail_other. Qed.

Lemma strip_spec l s s' : strip l s = Some s' -> s = l ++ s'.
Proof.
  revert s. induction l as [|a l IH]; intros s; simpl; [by intros [= ->]|].
  destruct s as [|c s]; [done|]. destruct (c =? a) eqn:Hc; [|done].
  apply N.eqb_eq in Hc as ->. intros H. by rewrite (IH s H).
Qed.

Lemma strip_clash l1 l2 s s1 :
  strip l1 s = Some s1 -> (forall s2, l1 ++ s1 <> l2 ++ s2) -> strip l2 s = None.
Proof.
  intros H1 Hne. destruct (strip l2 s) as [s2|] eqn:H2; [|done].
  apply strip_spec in H1, H2. subst s. by destruct (Hne s2).
Qed.

Lemma visibility_exec {A} (K : bool -> str -> option str -> option A) b s cap :
  insens K ->
  exec (Cat (Opt (Alt (lit "public") (Alt (lit "protected") (lit "private"))))
          method_rest) b s cap K
  = lift K b (method_tail s).
Proof.
  intros HK.
  assert (HKM : insens (fun b s cap => exec method_rest b s cap K))
    by by apply exec_insens.
  rewrite exec_cat, exec_opt, !exec_alt. unfold lit. rewrite !exec_lit by done.
  unfold method_tail, strip_visibility.
  rewrite word_public, word_protected, word_private.
  destruct (strip [112; 117; 98; 108; 105; 99] s) as [s1|] eqn:H1.
  { rewrite (strip_clash _ [112; 114; 111; 116; 101; 99; 116; 101; 100] _ _ H1)
      by (intros s2 [=]).
    rewrite (strip_clash _ [112; 114; 105; 118; 97; 116; 101] _ _ H1)
      by (intros s2 [=]).
    rewrite !method_rest_exec by done.
    apply strip_head in H1 as [t ->]. rewrite static_tail_after_p.
    by destruct (lift K b (static_tail (skip Space s1))). }
  destruct (strip [112; 114; 111; 116; 101; 99; 116; 101; 100] s) as [s1|] eqn:H2.
  { rewrite (strip_clash _ [112; 114; 105; 118; 97; 116; 101] _ _ H2)
      by (intros s2 [=]).
    rewrite !method_rest_exec by done.
    apply strip_head in H2 as [t ->]. rewrite static_tail_after_p.
    by destruct (lift K b (static_tail (skip Space s1))). }
  destruct (strip [112; 114; 105; 118; 97; 116; 101] s) as [s1|] eqn:H3.
  { rewrite !method_rest_exec by done.
    apply strip_head in H3 as [t ->]. rewrite static_tail_after_p.
    by destruct (lift K b (static_tail (skip Space s1))). }
  by rewrite method_rest_exec.
Qed.

Lemma method_tail_space c s :
  is_space c = true -> method_tail (c :: s) = static_tail (skip Space s).
Proof.
  intros Hc. unfold method_tail. rewrite strip_visibility_other.
  - simpl. change (cmatch Space c) with (is_space c). by rewrite Hc.
  - intros ->. by rewrite graphic_not_space in Hc.
Qed.

Lemma method_pattern_exec b s :
  match_at M1 b s = if b then method_tail (skip Space s) else None.
Proof.
  unfold match_at, M1. fold final. fold method_rest.
  rewrite exec_cat, exec_at_bol. destruct b; [|done].
  rewrite exec_cat, exec_star_greedy.
  - rewrite visibility_exec by done. unfold lift, final.
    by destruct (method_tail (skip Space s)) as [[n r]|].
  - apply exec_insens; [done|apply final_insens].
  - intros c s' Hc. rewrite !visibility_exec by done.
    rewrite (method_tail_space c s' Hc).
    unfold method_tail at 1.
    destruct (strip_visibility (skip Space s')) as [s1|] eqn:Hv.
    + apply strip_visibility_head in Hv as [t Hv].
      intros _. rewrite Hv. by rewrite static_tail_other.
    + by rewrite skip_idem.
Qed.

Lemma method_tail_fn s x : fn_tail s = Some x -> method_tail s = Some x.
Proof.
  intros Hs. destruct x as [n r]. pose proof (fn_tail_head s n r Hs) as [t ->].
  unfold method_tail. rewrite strip_visibility_other by done.
  rewrite skip_fixed by done. unfold static_tail. rewrite word_static. by cbn [strip].
Qed.

(** Where a function pattern matches, the method pattern matches with the
    same name and the same end. *)
Lemma function_match_is_method s name :
  fstart s name -> exists rest, match_at M1 true s = Some (name, rest).
Proof.
  intros [rest Hf]. exists rest. rewrite method_pattern_exec. by apply method_tail_fn.
Qed.

(** ** Function declarations inside a match of the method pattern *)

Lemma follows_nl_space s t : follows_nl s t -> follows_space s t.
Proof. induction 1; [by constructor|by constructor 2]. Qed.

Lemma follows_space_length s t : follows_space s t -> (length t < length s)%nat.
Proof. induction 1; simpl; lia. Qed.

Lemma follows_space_cons c s t :
  follows_space (c :: s) t -> is_space c = true /\ t = s \/ follows_space s t.
Proof. inversion 1; subst; auto. Qed.

Lemma follows_space_graphic c s t :
  is_space c = false -> follows_space (c :: s) t -> follows_space s t.
Proof. intros Hc [[Hc' _]|H]%follows_space_cons; [congruence|done]. Qed.

Lemma follows_space_app l s t :
  Forall (fun c => is_space c = false) l -> follows_space (l ++ s) t -> follows_space s t.
Proof.
  induction 1 as [|c l Hc _ IH]; simpl; [done|].
  intros H. apply IH. by eapply follows_space_graphic.
Qed.

Lemma follows_space_skip s t :
  follows_space s t ->
  skip Space t = skip Space s \/ follows_space (skip Space s) t.
Proof.
  induction s as [|c s IH]; [inversion 1|].
  intros H. cbn [skip]. change (cmatch Space c) with (is_space c).
  destruct (is_space c) eqn:Hc; [|by right].
  apply follows_space_cons in H as [[_ ->]|H]; [by left|by apply IH].
Qed.

Lemma follows_space_skip_word s t :
  follows_space s t -> follows_space (skip c_az_AZ_09_us s) t.
Proof.
  induction s as [|c s IH]; [inversion 1|].
  intros H. cbn [skip]. destruct (cmatch c_az_AZ_09_us c) eqn:Hc; [|done].
  apply IH. eapply follows_space_graphic; [|done]. by apply word_not_space.
Qed.

Lemma letters_graphic (l : str) :
  forallb (fun c => (97 <=? c) && (c <=? 122)) l = true ->
  Forall (fun c => is_space c = false) l.
Proof.
  intros H. apply Forall_forall. intros c Hc.
  rewrite forallb_forall in H. apply list_elem_of_In, H in Hc.
  apply andb_true_iff in Hc as [H1%N.leb_le H2%N.leb_le].
  apply graphic_not_space. lia.
Qed.

Lemma follows_space_strip l s s' t :
  forallb (fun c => (97 <=? c) && (c <=? 122)) l = true ->
  strip l s = Some s' -> follows_space s t -> follows_space s' t.
Proof.
  intros Hl Hs%strip_spec H. subst s.
  eapply follows_space_app; [|done]. by apply letters_graphic.
Qed.

Lemma skip_word_letters (l : str) c s :
  forallb (fun c => (97 <=? c) && (c <=? 122)) l = true ->
  is_space c = true ->
  skip c_az_AZ_09_us (l ++ c :: s) = c :: s.
Proof.
  intros Hl Hc. induction l as [|a l IH]; cbn [app skip].
  - by rewrite (space_not_word c).
  - cbn [forallb] in Hl. apply andb_true_iff in Hl as [Ha Hl].
    replace (cmatch c_az_AZ_09_us a) with true; [by apply IH|].
    symmetry. unfold cmatch, c_az_AZ_09_us. cbn [existsb]. unfold in_range at 1.
    cbn [fst snd]. by rewrite Ha.
Qed.

(** The name of a function tail cannot itself be the word "function"
    starting another declaration: what follows it would have to be both a
    name and the parenthesis. *)
Lemma fn_tail_name_is_function c3 s4 c6 s7 name rest :
  fn_tail (c3 :: s4) = Some (name, rest) ->
  skip Space (skip c_az_AZ_09_us s4) = c6 :: s7 ->
  (c6 =? LPAREN) = false.
Proof.
  unfold fn_tail. rewrite word_function.
  destruct (strip _ (c3 :: s4)) as [[|c s2]|] eqn:Hstrip; try done.
  apply strip_spec in Hstrip. injection Hstrip as -> ->.
  destruct (is_space c) eqn:Hc; [|done].
  rewrite (skip_word_letters [117; 110; 99; 116; 105; 111; 110] c s2 eq_refl Hc
           : skip c_az_AZ_09_us
               (117 :: 110 :: 99 :: 116 :: 105 :: 111 :: 110 :: c :: s2) = c :: s2).
  cbn [skip]. change (cmatch Space c) with (is_space c). rewrite Hc.
  destruct (skip Space s2) as [|c3' s4']; [done|].
  destruct (cmatch c_az_AZ_us c3') eqn:Hc3; [|done].
  intros _ [= <- _]. by apply word_not_lparen, word_start.
Qed.

Lemma fn_tail_inside s t m rest n rest' :
  fn_tail s = Some (m, rest) -> follows_space s t ->
  (length rest < length t)%nat -> fn_tail (skip Space t) = Some (n, rest') -> False.
Proof.
  intros Hs Hst Hlen Ht. unfold fn_tail in Hs.
  destruct (strip (pystr "function") s) as [[|c s2]|] eqn:Hstrip; try done.
  apply (follows_space_strip _ _ _ t) in Hstrip; [|done|done].
  destruct (is_space c) eqn:Hc; [|done].
  destruct (skip Space s2) as [|c3 s4] eqn:H3; [done|].
  destruct (cmatch c_az_AZ_us c3) eqn:Hc3; [|done].
  destruct (skip Space (skip c_az_AZ_09_us s4)) as [|c6 s7] eqn:H6; [done|].
  destruct (c6 =? LPAREN) eqn:Hc6; [|done]. injection Hs as _ <-.
  assert (Hin : skip Space t = c3 :: s4 \/ follows_space (c3 :: s4) t).
  { apply follows_space_cons in Hstrip as [[_ ->]|Hstrip]; [by left|].
    apply follows_space_skip in Hstrip. by rewrite H3 in Hstrip. }
  destruct Hin as [Hin|Hin].
  { rewrite Hin in Ht.
    by rewrite (fn_tail_name_is_function _ _ _ _ _ _ Ht H6) in Hc6. }
  apply follows_space_graphic in Hin; [|by apply word_not_space, word_start].
  apply follows_space_skip_word, follows_space_skip in Hin.
  rewrite H6 in Hin. destruct Hin as [Hin|Hin].
  - rewrite Hin in Ht. rewrite fn_tail_not_f in Ht; [done|].
    apply N.eqb_eq in Hc6 as ->. done.
  - apply follows_space_graphic in Hin.
    + apply follows_space_length in Hin. lia.
    + apply N.eqb_eq in Hc6 as ->. done.
Qed.

Lemma static_tail_fn s x : fn_tail s = Some x -> static_tail s = Some x.
Proof.
  intros Hs. destruct x as [n r]. pose proof (fn_tail_head s n r Hs) as [t ->].
  unfold static_tail. rewrite word_static. by cbn [strip].
Qed.

Lemma static_tail_inside s t m rest n rest' :
  static_tail s = Some (m, rest) -> follows_space s t ->
  (length rest < length t)%nat -> fn_tail (skip Space t) = Some (n, rest') -> n = m.
Proof.
  intros Hs Hst Hlen Ht. unfold static_tail in Hs.
  destruct (strip (pystr "static") s) as [[|c s2]|] eqn:Hstrip; [done| |].
  - apply (follows_space_strip _ _ _ t) in Hstrip; [|done|done].
    destruct (is_space c); [|done].
    assert (Hin : skip Space t = skip Space s2 \/ follows_space (skip Space s2) t).
    { apply follows_space_cons in Hstrip as [[_ ->]|Hstrip]; [by left|].
      by apply follows_space_skip. }
    destruct Hin as [Hin|Hin]; [congruence|].
    by destruct (fn_tail_inside _ _ _ _ _ _ Hs Hin Hlen Ht).
  - by destruct (fn_tail_inside _ _ _ _ _ _ Hs Hst Hlen Ht).
Qed.

Lemma spaced_static_tail_inside s t m rest n rest' :
  static_tail (skip Space s) = Some (m, rest) -> follows_space s t ->
  (length rest < length t)%nat -> fn_tail (skip Space t) = Some (n, rest') -> n = m.
Proof.
  intros Hs Hst Hlen Ht. apply follows_space_skip in Hst as [Hst|Hst].
  - rewrite Hst in Ht. apply static_tail_fn in Ht. congruence.
  - by eapply static_tail_inside.
Qed.

Lemma follows_space_visibility s s1 t :
  strip_visibility s = Some s1 -> follows_space s t -> follows_space s1 t.
Proof.
  unfold strip_visibility.
  destruct (strip (pystr "public") s) eqn:H1;
    [intros [= ->] H;
     exact (follows_space_strip (pystr "public") _ _ _ eq_refl H1 H)|].
  destruct (strip (pystr "protected") s) eqn:H2;
    [intros [= ->] H;
     exact (follows_space_strip (pystr "protected") _ _ _ eq_refl H2 H)|].
  intros H3 H. exact (follows_space_strip (pystr "private") _ _ _ eq_refl H3 H).
Qed.

(** A function declaration that starts after a line feed inside a match of
    the method pattern is the declaration that match has found. *)
Lemma method_match_covers s t m rest n :
  match_at M1 true s = Some (m, rest) -> follows_space s t ->
  (length rest < length t)%nat -> fstart t n -> n = m.
Proof.
  rewrite method_pattern_exec. intros Hs Hst Hlen [rest' Ht].
  apply follows_space_skip in Hst as [Hst|Hst].
  { rewrite Hst in Ht. apply method_tail_fn in Ht. congruence. }
  unfold method_tail in Hs.
  destruct (strip_visibility (skip Space s)) as [s1|] eqn:Hv.
  - eapply spaced_static_tail_inside; [done| |done|done].
    by eapply follows_space_visibility.
  - by eapply spaced_static_tail_inside.
Qed.

(** ** [finditer] over the function and method patterns *)

Lemma static_tail_shorter s name rest :
  static_tail s = Some (name, rest) -> (length rest < length s)%nat.
Proof.
  unfold static_tail.
  destruct (strip (pystr "static") s) as [[|c s2]|] eqn:Hstrip; [done| |].
  - apply strip_length in Hstrip. destruct (is_space c); [|done].
    intros H%fn_tail_shorter. pose proof (skip_length Space s2). simpl in *. lia.
  - apply fn_tail_shorter.
Qed.

Lemma strip_visibility_length s s1 :
  strip_visibility s = Some s1 -> (length s1 <= length s)%nat.
Proof.
  unfold strip_visibility.
  destruct (strip (pystr "public") s) eqn:H1;
    [intros [= ->]; apply strip_length in H1; lia|].
  destruct (strip (pystr "protected") s) eqn:H2;
    [intros [= ->]; apply strip_length in H2; lia|].
  intros H3. apply strip_length in H3. lia.
Qed.

Lemma method_match_shorter b s name rest :
  match_at M1 b s = Some (name, rest) -> b = true /\ (length rest < length s)%nat.
Proof.
  rewrite method_pattern_exec. destruct b; [|done]. intros H. split; [done|].
  unfold method_tail in H. pose proof (skip_length Space s).
  destruct (strip_visibility (skip Space s)) as [s1|] eqn:Hv.
  - apply strip_visibility_length in Hv. apply static_tail_shorter in H.
    pose proof (skip_length Space s1). lia.
  - apply static_tail_shorter in H. pose proof (skip_length Space (skip Space s)). lia.
Qed.

Lemma follows_nl_cons c s t :
  follows_nl (c :: s) t -> after c = true /\ t = s \/ follows_nl s t.
Proof. inversion 1; subst; auto. Qed.

(** Every name [finditer] yields for a function pattern stands at the start
    of the text or after a line feed, at the start of a declaration. *)
Lemma scan_function_starts pattern s : forall b k name,
  pattern ∈ FUNCTION_PATTERNS -> name ∈ scan pattern b s k ->
  b = true /\ fstart s name \/ exists t, follows_nl s t /\ fstart t name.
Proof.
  induction s as [|c s IH]; intros b k name Hp Hin.
  - simpl in Hin. destruct k; [|by apply elem_of_nil in Hin].
    destruct (match_at pattern b []) as [[n r]|] eqn:Hm; [|by apply elem_of_nil in Hin].
    apply list_elem_of_singleton in Hin as ->. left.
    by eapply function_match.
  - assert (Hrest : forall k', name ∈ scan pattern (after c) s k' ->
        b = true /\ fstart (c :: s) name
        \/ exists t, follows_nl (c :: s) t /\ fstart t name).
    { intros k' H. right. apply IH in H; [|done].
      destruct H as [[Hc Hf]|(t & Ht & Hf)].
      - exists s. split; [|done]. unfold after in Hc. apply N.eqb_eq in Hc as ->.
        constructor.
      - exists t. split; [by constructor|done]. }
    cbn [scan] in Hin. destruct k as [|k]; [|by eapply Hrest].
    destruct (match_at pattern b (c :: s)) as [[n r]|] eqn:Hm; [|by eapply Hrest].
    apply elem_of_cons in Hin as [->|Hin]; [|by eapply Hrest].
    left. by eapply function_match.
Qed.

(** Every function declaration at or after the point where [finditer]
    resumes is found by the method pattern too, with its name. *)
Lemma scan_method_covers s : forall b k name,
  (b = true /\ k = 0%nat /\ fstart s name
   \/ exists t, follows_nl s t /\ (length t + k <= length s)%nat /\ fstart t name) ->
  name ∈ scan M1 b s k.
Proof.
  induction s as [|c s IH]; intros b k name Hhit.
  - destruct Hhit as [(_ & _ & rest & Hf)|(t & Ht & _)]; [|inversion Ht].
    by cbn in Hf.
  - cbn [scan]. destruct k as [|k].
    + destruct (match_at M1 b (c :: s)) as [[m rest]|] eqn:Hm.
      * pose proof (method_match_shorter _ _ _ _ Hm) as [-> Hshort].
        destruct Hhit as [(_ & _ & Hf)|(t & Ht & Hlen & Hf)].
        { apply function_match_is_method in Hf as [rest' Hf].
          rewrite Hf in Hm. injection Hm as -> _. apply list_elem_of_here. }
        destruct (decide (length rest < length t)%nat) as [Hin|Hout].
        { rewrite (method_match_covers _ _ _ _ _ Hm (follows_nl_space _ _ Ht) Hin Hf).
          apply list_elem_of_here. }
        apply list_elem_of_further, IH.
        apply follows_nl_cons in Ht as [[Hc ->]|Ht].
        -- left. split; [done|]. split; [|done]. simpl in *. lia.
        -- right. exists t. split; [done|]. split; [|done].
           apply follows_nl_space, follows_space_length in Ht. simpl in *. lia.
      * apply IH. destruct Hhit as [(-> & _ & Hf)|(t & Ht & Hlen & Hf)].
        { apply function_match_is_method in Hf as [rest' Hf]. congruence. }
        apply follows_nl_cons in Ht as [[Hc ->]|Ht]; [by left|].
        right. exists t. split; [done|]. split; [|done].
        apply follows_nl_space, follows_space_length in Ht. lia.
    + apply IH. destruct Hhit as [(_ & [=] & _)|(t & Ht & Hlen & Hf)].
      apply follows_nl_cons in Ht as [[Hc ->]|Ht].
      * left. split; [done|]. split; [|done]. simpl in Hlen. lia.
      * right. exists t. split; [done|]. split; [|done]. simpl in Hlen. lia.
Qed.

(** Every name captured by a function pattern is captured by the method
    pattern. *)
Lemma function_captures_are_method_captures (content name : str) :
  name ∈ captures FUNCTION_PATTERNS content -> name ∈ captures METHOD_PATTERNS content.
Proof.
  unfold captures. rewrite METHOD_PATTERNS_eq. cbn [flat_map]. rewrite app_nil_r.
  intros Hin. apply list_elem_of_In, in_flat_map in Hin as (pattern & Hp & Hin).
  apply list_elem_of_In in Hp. apply list_elem_of_In in Hin.
  unfold finditer in *. apply scan_method_covers.
  apply (scan_function_starts pattern) in Hin; [|done].
  destruct Hin as [[_ Hf]|(t & Ht & Hf)].
  - left. done.
  - right. exists t. split; [done|]. split; [|done].
    apply follows_nl_space, follows_space_length in Ht. lia.
Qed.

(** ** Functions are methods *)

Lemma content_symbols_functions_in_methods (content : str) :
  functions_in_methods (content_symbols content).
Proof.
  unfold functions_in_methods, content_symbols. cbn [fst snd].
  intros name. rewrite !matched_elem. intros [Hcap Hvalid].
  split; [|done]. by apply function_captures_are_method_captures.
Qed.

Lemma merge_functions_in_methods (a b : Aggregate) :
  functions_in_methods a -> functions_in_methods b -> functions_in_methods (merge a b).
Proof. unfold functions_in_methods, merge. cbn [fst snd]. set_solver. Qed.

Lemma file_symbols_functions_in_methods (fs : FS) (p : path) :
  functions_in_methods (file_symbols fs p).
Proof.
  unfold file_symbols. destruct (skipped p); [done|].
  destruct (read_text fs p); [apply content_symbols_functions_in_methods|done].
Qed.

Lemma merge_all_functions_in_methods (fs : FS) (php_files : list path) :
  functions_in_methods (merge_all (map (file_symbols fs) php_files)).
Proof.
  induction php_files as [|p rest IH]; [done|]. simpl.
  apply merge_functions_in_methods; [apply file_symbols_functions_in_methods|done].
Qed.

(** ** The names the filter is given *)

Lemma take_skip k s :
  Forall (fun c => cmatch k c = true) (take (length s - length (skip k s)) s).
Proof.
  induction s as [|c s IH]; [constructor|]. cbn [skip].
  destruct (cmatch k c) eqn:Hc.
  - pose proof (skip_length k s).
    replace (length (c :: s) - length (skip k s))%nat
      with (S (length s - length (skip k s))) by (simpl; lia).
    cbn [take]. by constructor.
  - replace (length (c :: s) - length (c :: s))%nat with 0%nat by lia. constructor.
Qed.

Lemma fn_tail_word s name rest : fn_tail s = Some (name, rest) -> word name.
Proof.
  unfold fn_tail.
  destruct (strip (pystr "function") s) as [[|c s2]|]; try done.
  destruct (is_space c); [|done].
  destruct (skip Space s2) as [|c3 s4]; [done|].
  destruct (cmatch c_az_AZ_us c3) eqn:Hc3; [|done].
  destruct (skip Space (skip c_az_AZ_09_us s4)) as [|c6 s7]; [done|].
  destruct (c6 =? LPAREN); [|done]. intros [= <- _].
  pose proof (skip_length c_az_AZ_09_us s4).
  cbn [length]. rewrite Nat.sub_succ_l by done.
  cbn [take]. constructor; [by apply word_start|apply take_skip].
Qed.

Lemma static_tail_word s name rest : static_tail s = Some (name, rest) -> word name.
Proof.
  unfold static_tail.
  destruct (strip (pystr "static") s) as [[|c s2]|]; [done| |apply fn_tail_word].
  destruct (is_space c); [apply fn_tail_word|done].
Qed.

Lemma method_tail_word s name rest : method_tail s = Some (name, rest) -> word name.
Proof.
  unfold method_tail. destruct (strip_visibility s); apply static_tail_word.
Qed.

Lemma scan_matches r s : forall b k name,
  name ∈ scan r b s k -> exists b' t rest, match_at r b' t = Some (name, rest).
Proof.
  induction s as [|c s IH]; intros b k name Hin; cbn [scan] in Hin.
  - destruct k; [|by apply elem_of_nil in Hin].
    destruct (match_at r b []) as [[n rest]|] eqn:Hm; [|by apply elem_of_nil in Hin].
    apply list_elem_of_singleton in Hin as ->. eauto.
  - destruct k as [|k]; [|by eapply IH].
    destruct (match_at r b (c :: s)) as [[n rest]|] eqn:Hm; [|by eapply IH].
    apply elem_of_cons in Hin as [->|Hin]; [eauto|by eapply IH].
Qed.

(** The filter is only ever given names of ASCII letters, digits and
    underscores, on which [lower] is [str.lower]. *)
Lemma filtered_names_are_words (content name : str) :
  name ∈ captures FUNCTION_PATTERNS content \/ name ∈ captures METHOD_PATTERNS content ->
  word name.
Proof.
  unfold captures.
  intros [Hin|Hin]; apply list_elem_of_In, in_flat_map in Hin as (pattern & Hp & Hin);
    apply list_elem_of_In in Hp; apply list_elem_of_In, scan_matches in Hin
      as (b & t & rest & Hm).
  - apply function_match in Hm as [_ [rest' Hf]]; [|done]. by eapply fn_tail_word.
  - rewrite METHOD_PATTERNS_eq in Hp. apply list_elem_of_singleton in Hp as ->.
    rewrite method_pattern_exec in Hm. destruct b; [|done].
    by eapply method_tail_word.
Qed.

(** ** The scenarios of the specification *)

(** A: one declaration with a return type, found by both function patterns
    and kept once. *)
Example scenario_A :
  captures FUNCTION_PATTERNS (pystr "function foo(int $x): bool {}")
  = [pystr "foo"; pystr "foo"] /\
  sym_functions
    (symbols_of (extract_content (pystr "function foo(int $x): bool {}")
                   (new_extractor sample_root)))
  = [pystr "foo"].
Proof. split; vm_compute; reflexivity. Qed.

(** B: a reserved word in the place of the name is captured and filtered
    out. *)
Example scenario_B :
  captures FUNCTION_PATTERNS (pystr "function if($x) {}") = [pystr "if"] /\
  symbols_of (extract_content (pystr "function if($x) {}") (new_extractor sample_root))
  = {| sym_functions := []; sym_classes := []; sym_methods := [];
       sym_constants := [] |}.
Proof. split; vm_compute; reflexivity. Qed.

(** D: the same function declared in two files is listed once. *)
Example scenario_D :
  sym_functions
    (symbols_of (extract_content (pystr "function bar() {}")
                   (extract_content (pystr ("<?php" ++ LF ++ "function bar() {}"))
                      (new_extractor sample_root))))
  = [pystr "bar"].
Proof. vm_compute. reflexivity. Qed.

(** ** The run when printing and removing can fail *)











(** * The claims *)

(** C1, at the failing input.  When [git clone] exits non-zero the
    exception leaves [generate_builtins] before its [try] is entered: the
    run fails and the directory [mkdtemp] has just made is still there. *)
Theorem C1_failed_clone_keeps_scratch (w : world) (output_path : path) (fs : FS)
    (d : path) (fs1 : FS) :
  mkdtemp w fs = inr (d, fs1) -> git_clone w = None ->
  generate_builtins w output_path None fs
  = (inl CalledProcessError, <[d := Dir]> fs, [Cloning d]) /\
  fs !! d = None /\
  (generate_builtins w output_path None fs).1.2 !! d = Some Dir /\
  (main w output_path None fs).1.1 = 1%nat.
Proof.
  intros Hmk Hclone. pose proof (mkdtemp_fresh w fs d fs1 Hmk) as (Hfree & -> & _).
  assert (Hrun : generate_builtins w output_path None fs
                 = (inl CalledProcessError, <[d := Dir]> fs, [Cloning d])).
  { unfold generate_builtins, acquire, clone_stubs. by rewrite Hmk, Hclone. }
  split; [exact Hrun|]. split; [exact Hfree|]. split.
  - rewrite Hrun. simpl. apply lookup_insert_eq.
  - unfold main. by rewrite Hrun.
Qed.

Lemma C1_failed_clone_keeps_scratch_witness :
  mkdtemp sample_world sample_fs
  = inr (["/"; "tmp"; "phpstorm-stubs-a1b2c3d4"]%string,
         <[["/"; "tmp"; "phpstorm-stubs-a1b2c3d4"]%string := Dir]> sample_fs) /\
  git_clone sample_world = None /\
  (generate_builtins sample_world sample_output None sample_fs).1.2
    !! (["/"; "tmp"; "phpstorm-stubs-a1b2c3d4"]%string) = Some Dir.
Proof.
  assert (H : mkdtemp sample_world sample_fs
              = inr (["/"; "tmp"; "phpstorm-stubs-a1b2c3d4"]%string,
                     <[["/"; "tmp"; "phpstorm-stubs-a1b2c3d4"]%string := Dir]> sample_fs)).
  { unfold mkdtemp.
    replace (is_dir sample_fs (tmpdir sample_world)) with true
      by (vm_compute; reflexivity).
    replace (find _ (tmp_names sample_world)) with (Some "a1b2c3d4"%string)
      by (vm_compute; reflexivity).
    reflexivity. }
  split; [exact H|]. split; [reflexivity|].
  apply (C1_failed_clone_keeps_scratch sample_world sample_output sample_fs _ _ H
           eq_refl).
Defined.




(** C3 as the code has it.  The split is on whether a path was given, not
    on whether it exists: a given path is returned as it is, not owned, with
    nothing created or fetched, and the run deletes nothing; with no path
    given, a directory that did not exist is made, the clone is asked to
    fill it, and it is returned as owned. *)
Theorem C3_acquire_splits_on_given (w : world) (fs : FS)
    (output_path p q d : path) (fs1 : FS) :
  acquire w (Some p) fs = (inr (p, false), fs, []) /\
  (generate_builtins w output_path (Some p) fs).1.1
  = (try_body w output_path p fs).1.1 /\
  (is_Some (fs !! q) ->
   is_Some ((generate_builtins w output_path (Some p) fs).1.2 !! q)) /\
  (mkdtemp w fs = inr (d, fs1) ->
   fs !! d = None /\ fs1 = <[d := Dir]> fs /\
   acquire w None fs
   = match git_clone w with
     | Some tree => (inr (d, true), populate d tree fs1, [Cloning d])
     | None => (inl CalledProcessError, fs1, [Cloning d])
     end).
Proof.
  split; [reflexivity|].
  assert (Hrun : generate_builtins w output_path (Some p) fs
                 = ((try_body w output_path p fs).1.1,
                    (try_body w output_path p fs).1.2,
                    (try_body w output_path p fs).2 ++ [])).
  { unfold generate_builtins, acquire, finally_.
    by destruct (try_body w output_path p fs) as [[r fs2] out2]. }
  split; [by rewrite Hrun|]. split.
  - intros Hq. rewrite Hrun. simpl. by apply try_body_keeps.
  - intros Hmk. pose proof (mkdtemp_fresh w fs d fs1 Hmk) as (Hfree & Hfs1 & _).
    split; [done|]. split; [done|].
    unfold acquire, clone_stubs. rewrite Hmk. by destruct (git_clone w).
Qed.

Lemma C3_acquire_splits_on_given_witness :
  is_Some (sample_fs !! in_stubs ["Core"; "Core.php"]%string) /\
  is_Some ((generate_builtins sample_world sample_output
              (Some ["/"; "srv"; "missing"]%string) sample_fs).1.2
           !! in_stubs ["Core"; "Core.php"]%string).
Proof.
  assert (H : is_Some (sample_fs !! in_stubs ["Core"; "Core.php"]%string))
    by (vm_compute; eauto).
  split; [exact H|].
  apply (proj1 (proj2 (proj2 (C3_acquire_splits_on_given sample_world sample_fs
                                sample_output ["/"; "srv"; "missing"]%string
                                (in_stubs ["Core"; "Core.php"]%string) [] ∅))) H).
Defined.

(** Against C3 in the words of the specification: a path that is given
    and does not exist is taken as it is.  No scratch directory is made,
    nothing is fetched, the run does not own the path, and it ends well with
    an empty report. *)
Lemma C3_given_missing_path_is_used :
  exists_ sample_fs ["/"; "srv"; "missing"]%string = false /\
  acquire sample_world (Some ["/"; "srv"; "missing"]%string) sample_fs
  = (inr (["/"; "srv"; "missing"]%string, false), sample_fs, []) /\
  exists_ (generate_builtins sample_world sample_output
             (Some ["/"; "srv"; "missing"]%string) sample_fs).1.2
    ["/"; "tmp"; "phpstorm-stubs-a1b2c3d4"]%string = false /\
  (main sample_world sample_output (Some ["/"; "srv"; "missing"]%string)
     sample_fs).1.1 = 0%nat /\
  (main sample_world sample_output (Some ["/"; "srv"; "missing"]%string)
     sample_fs).2
  = [Found 0;
     Generated sample_output
       {| stat_functions := 0; stat_classes := 0; stat_methods := 0;
          stat_constants := 0; total_unique := 0 |}].
Proof.
  split; [vm_compute; reflexivity|]. split; [reflexivity|].
  repeat split; vm_compute; reflexivity.
Qed.

(** C4. The filter accepts a name of ASCII letters, digits and underscores
    exactly when its lower-case form is no reserved word and it has two
    characters or more; such a name that equals a reserved word up to case
    is rejected; every name [_extract_from_file] adds to the functions or
    to the methods passed the filter, while every capture of a class or a
    constant pattern is added unfiltered, also names the filter rejects.
    The names the filter is given are all made of ASCII letters, digits and
    underscores, on which [lower] is [str.lower]. *)
Theorem C4_name_filter (name : str) (content : str) (self : PHPStubsExtractor) :
  (word name ->
   (_is_valid_function_name name = true
    <-> (lower name ∉ keywords) /\ (2 <= length name)%nat)) /\
  (word name ->
   forall kw, kw ∈ keywords -> lower name = lower kw ->
              _is_valid_function_name name = false) /\
  (name ∈ functions (extract_content content self)
   <-> name ∈ functions self
       \/ name ∈ captures FUNCTION_PATTERNS content
          /\ _is_valid_function_name name = true) /\
  (name ∈ methods (extract_content content self)
   <-> name ∈ methods self
       \/ name ∈ captures METHOD_PATTERNS content
          /\ _is_valid_function_name name = true) /\
  (name ∈ classes (extract_content content self)
   <-> name ∈ classes self \/ name ∈ captures CLASS_PATTERNS content) /\
  (name ∈ constants (extract_content content self)
   <-> name ∈ constants self \/ name ∈ captures CONSTANT_PATTERNS content) /\
  (_is_valid_function_name (pystr "Array") = false /\
   pystr "Array" ∈ classes (extract_content (pystr "class Array {}") self)) /\
  (_is_valid_function_name (pystr "TRUE") = false /\
   pystr "TRUE" ∈ constants (extract_content (pystr "const TRUE = 1;") self)) /\
  (name ∈ captures FUNCTION_PATTERNS content
   \/ name ∈ captures METHOD_PATTERNS content -> word name).
Proof.
  split.
  { intros _. unfold _is_valid_function_name.
    rewrite andb_true_iff, negb_true_iff, bool_decide_eq_false, bool_decide_eq_true.
    done. }
  split.
  { intros _ kw Hkw Hlow. unfold _is_valid_function_name.
    apply andb_false_iff. left. apply negb_false_iff, bool_decide_eq_true.
    pose proof keywords_lower as Hall. rewrite Forall_forall in Hall.
    rewrite Hlow, (Hall kw Hkw). done. }
  repeat split.
  - rewrite functions_extract_content, elem_of_union, matched_elem. tauto.
  - rewrite functions_extract_content, elem_of_union, matched_elem. tauto.
  - rewrite methods_extract_content, elem_of_union, matched_elem. tauto.
  - rewrite methods_extract_content, elem_of_union, matched_elem. tauto.
  - rewrite classes_extract_content, elem_of_union, matched_elem. tauto.
  - rewrite classes_extract_content, elem_of_union, matched_elem. tauto.
  - rewrite constants_extract_content, elem_of_union, matched_elem. tauto.
  - rewrite constants_extract_content, elem_of_union, matched_elem. tauto.
  - rewrite classes_extract_content, elem_of_union, matched_elem.
    right. split; [|done]. vm_compute. left.
  - rewrite constants_extract_content, elem_of_union, matched_elem.
    right. split; [|done]. vm_compute. left.
  - apply filtered_names_are_words.
Qed.

Lemma C4_name_filter_witness :
  word (pystr "RETURN") /\
  pystr "return" ∈ keywords /\
  lower (pystr "RETURN") = lower (pystr "return") /\
  _is_valid_function_name (pystr "RETURN") = false.
Proof.
  assert (Hw : word (pystr "RETURN")).
  { unfold word. repeat (constructor; [reflexivity|]). constructor. }
  assert (Hk : pystr "return" ∈ keywords).
  { apply (bool_decide_unpack (pystr "return" ∈ keywords)).
    vm_compute. exact I. }
  split; [exact Hw|]. split; [exact Hk|]. split; [reflexivity|].
  apply (proj1 (proj2 (C4_name_filter (pystr "RETURN") [] (new_extractor [])))
           Hw (pystr "return") Hk eq_refl).
Defined.

(** C5. In every report a run generates, each count under [stats] is the
    length of the list of the same name under [symbols], and [total_unique]
    is the number of distinct names among functions, classes and methods;
    the constants do not enter it. *)
Theorem C5_count_consistency w output_path stubs_arg fs report fs' out :
  generate_builtins w output_path stubs_arg fs = (inr report, fs', out) ->
  stat_functions (stats report) = length (sym_functions (symbols report)) /\
  stat_classes (stats report) = length (sym_classes (symbols report)) /\
  stat_methods (stats report) = length (sym_methods (symbols report)) /\
  stat_constants (stats report) = length (sym_constants (symbols report)) /\
  total_unique (stats report)
  = size ((list_to_set (sym_functions (symbols report)) : gset str)
          ∪ list_to_set (sym_classes (symbols report))
          ∪ list_to_set (sym_methods (symbols report))) /\
  (exists self : PHPStubsExtractor,
      symbols report = symbols_of self /\
      stat_constants (stats report) = size (constants self) /\
      total_unique (stats report)
      = size (functions self ∪ classes self ∪ methods self)).
Proof.
  intros H. apply generate_builtins_report in H as (root & fs1 & ->).
  unfold extract_all.
  pose proof (extract_files_spec fs1 (rglob fs1 (stubs_path (new_extractor root)))
                (new_extractor root)) as Hs.
  destruct (extract_files fs1 _ (new_extractor root)) as [[syms self'] out'].
  destruct Hs as (-> & _ & _). simpl.
  repeat split; try reflexivity.
  exists self'. simpl. rewrite !list_to_set_sorted, length_sorted. done.
Qed.

Lemma C5_count_consistency_witness :
  exists fs' out,
    generate_builtins sample_world sample_output (Some sample_root) sample_fs
    = (inr sample_report, fs', out) /\
    stat_constants (stats sample_report) = 2%nat /\
    total_unique (stats sample_report) = 4%nat /\
    total_unique (stats sample_report)
    = size ((list_to_set (sym_functions (symbols sample_report)) : gset str)
            ∪ list_to_set (sym_classes (symbols sample_report))
            ∪ list_to_set (sym_methods (symbols sample_report))).
Proof.
  destruct (generate_builtins sample_world sample_output (Some sample_root) sample_fs)
    as [[r fs'] out] eqn:Hrun.
  assert (Hr : r = inr sample_report).
  { change r with ((r, fs', out).1.1). rewrite <- Hrun. vm_compute. reflexivity. }
  subst r. exists fs', out. split; [reflexivity|].
  split; [reflexivity|]. split; [reflexivity|].
  apply (C5_count_consistency _ _ _ _ _ _ _ Hrun).
Defined.

(** C6. Each of the four lists [extract_all] returns is ascending by code
    point, without repeats, and holds the names of its set; the lists do not
    depend on the order in which the names entered the sets, nor on the
    order of the files. *)
Theorem C6_symbols_sorted (fs : FS) (php_files php_files' : list path)
    (self : PHPStubsExtractor) (names names' : list str) (acc : gset str) :
  php_files ≡ₚ php_files' ->
  names ≡ₚ names' ->
  let syms := (extract_files fs php_files self).1.1 in
  ascending (sym_functions syms) /\ ascending (sym_classes syms) /\
  ascending (sym_methods syms) /\ ascending (sym_constants syms) /\
  syms = symbols_of (extract_files fs php_files self).1.2 /\
  (extract_files fs php_files' self).1.1 = syms /\
  sorted (foldl (fun acc name => {[name]} ∪ acc) acc names)
  = sorted (foldl (fun acc name => {[name]} ∪ acc) acc names').
Proof.
  intros Hperm Hnames syms.
  pose proof (extract_files_perm fs php_files php_files' self Hperm)
    as (_ & Heq).
  pose proof (extract_files_spec fs php_files self) as H1. subst syms.
  destruct (extract_files fs php_files self) as [[syms1 self1] out1].
  destruct H1 as (-> & _ & _). simpl in *.
  repeat split; try apply sorted_ascending; try done.
  pose proof (add_names_union (fun _ => true) names acc) as E1.
  pose proof (add_names_union (fun _ => true) names' acc) as E2.
  simpl in E1, E2. rewrite E1, E2. f_equal. f_equal.
  apply set_eq. intros x. rewrite !elem_of_list_to_set.
  assert (Hf : forall l : list str, List.filter (fun _ => true) l = l).
  { induction l; simpl; congruence. }
  rewrite !Hf. by rewrite Hnames.
Qed.

Lemma C6_symbols_sorted_witness :
  sample_files ≡ₚ reverse sample_files /\
  [pystr "foo"; pystr "bar"] ≡ₚ [pystr "bar"; pystr "foo"] /\
  ascending (sym_functions
               (extract_files sample_fs sample_files (new_extractor sample_root)).1.1).
Proof.
  assert (H : sample_files ≡ₚ reverse sample_files)
    by (symmetry; apply reverse_Permutation).
  split; [exact H|]. split; [apply Permutation_swap|].
  apply (C6_symbols_sorted sample_fs sample_files (reverse sample_files)
           (new_extractor sample_root) [pystr "foo"; pystr "bar"]
           [pystr "bar"; pystr "foo"] ∅ H).
  apply Permutation_swap.
Defined.

(** C7. Extracting the same content a second time changes nothing: the
    extractor, and so each of its four sets, is what it was after the first
    time; the same holds for reading and extracting the same file twice. *)
Theorem C7_extraction_idempotent (content : str) (self : PHPStubsExtractor)
    (fs : FS) (file_path : path) :
  extract_content content (extract_content content self)
  = extract_content content self /\
  aggregate (extract_content content (extract_content content self))
  = merge (aggregate self) (content_symbols content) /\
  (_extract_from_file fs (_extract_from_file fs self file_path).1 file_path).1
  = (_extract_from_file fs self file_path).1.
Proof.
  assert (Hidem : forall c s, extract_content c (extract_content c s)
                              = extract_content c s).
  { intros c s. apply extractor_eq; [done|].
    by rewrite !aggregate_extract_content, merge_absorb. }
  split; [apply Hidem|]. split.
  - by rewrite Hidem, aggregate_extract_content.
  - unfold _extract_from_file. destruct (read_text fs file_path) eqn:Hr; simpl.
    + apply Hidem.
    + done.
Qed.

(** C8. A file is passed over exactly when one of the parts of its path is
    equal to an entry of [SKIP_DIRS]; such a file is never read, whatever it
    holds, and any other file is handed to [_extract_from_file]. *)
Theorem C8_skip_exact_segment (fs : FS) (total : nat) (php_file : path)
    (rest : list path) (i : nat) (self : PHPStubsExtractor) :
  (skipped php_file = true <-> exists seg, seg ∈ php_file /\ seg ∈ SKIP_DIRS) /\
  ((exists seg, seg ∈ php_file /\ seg ∈ SKIP_DIRS) ->
   walk fs total (php_file :: rest) i self = walk fs total rest (S i) self /\
   file_symbols fs php_file = no_symbols) /\
  (~ (exists seg, seg ∈ php_file /\ seg ∈ SKIP_DIRS) ->
   (walk fs total (php_file :: rest) i self).1
   = (walk fs total rest (S i) (_extract_from_file fs self php_file).1).1).
Proof.
  assert (Hiff : skipped php_file = true
                 <-> exists seg, seg ∈ php_file /\ seg ∈ SKIP_DIRS).
  { unfold skipped. rewrite excluded_extension_never, orb_false_r.
    apply in_skip_dir_spec. }
  split; [exact Hiff|]. split.
  - intros Hseg. apply Hiff in Hseg. rewrite walk_cons. unfold file_symbols.
    by rewrite Hseg.
  - intros Hno. rewrite walk_cons.
    destruct (skipped php_file); [exfalso; apply Hno; by apply Hiff|].
    destruct (_extract_from_file fs self php_file) as [self1 out1]. simpl.
    by destruct (walk fs total rest (S i) self1).
Qed.

Lemma C8_skip_exact_segment_witness :
  (exists seg, seg ∈ in_stubs ["tests"; "t.php"]%string /\ seg ∈ SKIP_DIRS) /\
  walk sample_fs 1 [in_stubs ["tests"; "t.php"]%string] 0 (new_extractor sample_root)
  = (new_extractor sample_root, []) /\
  read_text sample_fs (in_stubs ["tests"; "t.php"]%string)
  = Some (pystr ("function only_in_tests() {}" ++ LF)).
Proof.
  assert (H : exists seg, seg ∈ in_stubs ["tests"; "t.php"]%string /\ seg ∈ SKIP_DIRS).
  { exists "tests"%string. split; [|apply list_elem_of_In; simpl; tauto].
    apply list_elem_of_In; simpl; tauto. }
  split; [exact H|]. split.
  - apply (proj1 (proj2 (C8_skip_exact_segment sample_fs 1
                           (in_stubs ["tests"; "t.php"]%string) [] 0
                           (new_extractor sample_root)))) in H.
    apply (proj1 H).
  - vm_compute. reflexivity.
Defined.

(** C9. Whatever order the files of a corpus are walked in, the extractor
    ends with the same four sets, and so returns the same symbols. *)
Theorem C9_order_independence (fs : FS) (php_files php_files' : list path)
    (self : PHPStubsExtractor) :
  php_files ≡ₚ php_files' ->
  aggregate (extract_files fs php_files self).1.2
  = aggregate (extract_files fs php_files' self).1.2 /\
  (extract_files fs php_files self).1.2 = (extract_files fs php_files' self).1.2 /\
  (extract_files fs php_files self).1.1 = (extract_files fs php_files' self).1.1.
Proof.
  intros Hperm.
  destruct (extract_files_perm fs php_files php_files' self Hperm) as [Hself Hsyms].
  split; [by rewrite Hself|]. by split.
Qed.

Lemma C9_order_independence_witness :
  sample_files ≡ₚ reverse sample_files /\
  (extract_files sample_fs sample_files (new_extractor sample_root)).1.2
  = (extract_files sample_fs (reverse sample_files) (new_extractor sample_root)).1.2.
Proof.
  assert (H : sample_files ≡ₚ reverse sample_files)
    by (symmetry; apply reverse_Permutation).
  split; [exact H|].
  apply (C9_order_independence sample_fs sample_files (reverse sample_files)
           (new_extractor sample_root) H).
Defined.

(** C10. A text matched by a function pattern is matched by the method
    pattern with the same name, and every name [finditer] captures for a
    function pattern it captures for the method pattern; so in every report
    the functions are among the methods, and [total_unique] counts the
    classes and the methods. *)
Theorem C10_functions_are_methods (w : world) (output_path : path)
    (stubs_arg : option path) (fs : FS) (report : Report) (fs' : FS)
    (out : list line) :
  generate_builtins w output_path stubs_arg fs = (inr report, fs', out) ->
  (forall name, name ∈ sym_functions (symbols report) ->
                name ∈ sym_methods (symbols report)) /\
  total_unique (stats report)
  = size ((list_to_set (sym_classes (symbols report)) : gset str)
          ∪ list_to_set (sym_methods (symbols report))) /\
  (forall pattern b s name rest,
     pattern ∈ FUNCTION_PATTERNS -> match_at pattern b s = Some (name, rest) ->
     exists method_pattern rest',
       method_pattern ∈ METHOD_PATTERNS /\
       match_at method_pattern b s = Some (name, rest')) /\
  (forall content name,
     name ∈ captures FUNCTION_PATTERNS content ->
     name ∈ captures METHOD_PATTERNS content) /\
  (forall content self,
     functions self ⊆ methods self ->
     functions (extract_content content self) ⊆ methods (extract_content content self)).
Proof.
  intros H. apply generate_builtins_report in H as (root & fs1 & ->).
  unfold extract_all.
  pose proof (extract_files_spec fs1 (rglob fs1 (stubs_path (new_extractor root)))
                (new_extractor root)) as Hs.
  destruct (extract_files fs1 _ (new_extractor root)) as [[syms self'] out'].
  destruct Hs as (-> & _ & Hagg).
  assert (Hsub : functions self' ⊆ methods self').
  { change (functions_in_methods (aggregate self')). rewrite Hagg.
    apply merge_functions_in_methods; [done|apply merge_all_functions_in_methods]. }
  split; [|split; [|split; [|split]]].
  - intros name. cbn. rewrite !elem_of_sorted. apply Hsub.
  - cbn. rewrite !list_to_set_sorted. f_equal. set_solver.
  - intros pattern b s name rest Hp Hm.
    apply function_match in Hm as [-> Hf]; [|done].
    apply function_match_is_method in Hf as [rest' Hf].
    exists M1, rest'. split; [|done]. rewrite METHOD_PATTERNS_eq. apply list_elem_of_here.
  - apply function_captures_are_method_captures.
  - intros content self Hself.
    change (functions_in_methods (aggregate (extract_content content self))).
    rewrite aggregate_extract_content.
    apply merge_functions_in_methods; [done|apply content_symbols_functions_in_methods].
Qed.

Lemma C10_functions_are_methods_witness :
  exists fs' out,
    generate_builtins sample_world sample_output (Some sample_root) sample_fs
    = (inr sample_report, fs', out) /\
    (forall name, name ∈ sym_functions (symbols sample_report) ->
                  name ∈ sym_methods (symbols sample_report)) /\
    total_unique (stats sample_report)
    = size ((list_to_set (sym_classes (symbols sample_report)) : gset str)
            ∪ list_to_set (sym_methods (symbols sample_report))).
Proof.
  destruct (generate_builtins sample_world sample_output (Some sample_root) sample_fs)
    as [[r fs'] out] eqn:Hrun.
  assert (Hr : r = inr sample_report).
  { change r with ((r, fs', out).1.1). rewrite <- Hrun. vm_compute. reflexivity. }
  subst r. exists fs', out. split; [reflexivity|].
  pose proof (C10_functions_are_methods _ _ _ _ _ _ _ Hrun) as (H1 & H2 & _).
  split; [exact H1|exact H2].
Defined.

(** * Further properties of the code *)

(** ** What a match of a pattern of the registry looks like *)

Section Sound.
Context {A : Type}.

Lemma star_sound k b s (K : bool -> str -> option A) res :
  star k b s K = Some res ->
  exists run s' b', s = run ++ s' /\ Forall (fun x => cmatch k x = true) run
                    /\ K b' s' = Some res.
Proof.
  revert b. induction s as [|c s IH]; intros b; cbn [star].
  - intros H. exists [], [], b. by repeat split.
  - destruct (cmatch k c) eqn:Hc; [|intros H; exists [], (c :: s), b; by repeat split].
    destruct (star k (after c) s K) as [r|] eqn:Hs.
    + intros [= ->]. apply IH in Hs as (run & s' & b' & -> & Hrun & HK).
      exists (c :: run), s', b'. repeat split; [by constructor|done].
    + intros H. exists [], (c :: s), b. by repeat split.
Qed.

Lemma exec_sound a k r : forall (K : bool -> str -> option str -> option A) b s cap res,
  groups_like a k r -> exec r b s cap K = Some res ->
  exists pre s' b' cap',
    s = pre ++ s' /\ K b' s' cap' = Some res /\
    (consumes r = true -> pre <> []) /\
    (cap' = cap \/ good_cap a k cap') /\
    (sets_group r = true -> good_cap a k cap').
Proof.
  induction r as [| |c|k0|k0|k0|r IH|r1 IH1 r2 IH2|r1 IH1 r2 IH2|r IH];
    intros K b s cap res Hg Hex; cbn [exec] in Hex; cbn [consumes sets_group].
  - exists [], s, b, cap. repeat split; auto; done.
  - destruct b; [|done]. exists [], s, true, cap. repeat split; auto; done.
  - destruct s as [|x s]; [done|]. destruct (x =? c); [|done].
    exists [x], s, (after x), cap. repeat split; auto; done.
  - destruct s as [|x s]; [done|]. destruct (cmatch k0 x); [|done].
    exists [x], s, (after x), cap. repeat split; auto; done.
  - apply star_sound in Hex as (run & s' & b' & -> & _ & HK).
    exists run, s', b', cap. repeat split; auto; done.
  - destruct s as [|x s]; [done|]. destruct (cmatch k0 x); [|done].
    apply star_sound in Hex as (run & s' & b' & -> & _ & HK).
    exists (x :: run), s', b', cap. repeat split; auto; done.
  - destruct (exec r b s cap K) as [x|] eqn:Hr.
    + injection Hex as ->. apply IH in Hr as (pre & s' & b' & cap' & -> & HK & _ & Hc & _);
        [|done].
      exists pre, s', b', cap'. repeat split; auto; done.
    + exists [], s, b, cap. repeat split; auto; done.
  - destruct Hg as [Hg1 Hg2]. destruct (exec r1 b s cap K) as [x|] eqn:Hr.
    + injection Hex as ->.
      apply IH1 in Hr as (pre & s' & b' & cap' & -> & HK & Hne & Hc & Hs); [|done].
      exists pre, s', b', cap'. repeat split; auto.
      * intros [H1 _]%andb_true_iff. auto.
      * intros [H1 _]%andb_true_iff. auto.
    + apply IH2 in Hex as (pre & s' & b' & cap' & -> & HK & Hne & Hc & Hs); [|done].
      exists pre, s', b', cap'. repeat split; auto.
      * intros [_ H2]%andb_true_iff. auto.
      * intros [_ H2]%andb_true_iff. auto.
  - destruct Hg as [Hg1 Hg2].
    apply IH1 in Hex as (pre1 & s1 & b1 & cap1 & -> & Hex & Hne1 & Hc1 & Hs1); [|done].
    apply IH2 in Hex as (pre2 & s2 & b2 & cap2 & -> & HK & Hne2 & Hc2 & Hs2); [|done].
    exists (pre1 ++ pre2), s2, b2, cap2. rewrite <- app_assoc.
    repeat split; auto.
    + intros [H|H]%orb_true_iff [??]%app_eq_nil; [by apply Hne1|by apply Hne2].
    + destruct Hc2 as [->|?], Hc1 as [->|?]; auto.
    + intros [H|H]%orb_true_iff; auto. destruct Hc2 as [->|?]; auto.
  - cbn [groups_like] in Hg. subst r. cbn [exec] in Hex.
    destruct s as [|x s]; [done|]. destruct (cmatch a x) eqn:Hx; [|done].
    apply star_sound in Hex as (run & s' & b' & -> & Hrun & HK).
    exists (x :: run), s', b', (Some (x :: run)).
    assert (Hgood : good_cap a k (Some (x :: run))).
    { exists (x :: run). split; [done|]. by exists x, run. }
    split; [done|]. split; [|split; [done|by split; [right|]]].
    rewrite <- HK. do 2 f_equal. cbn [length]. rewrite length_app.
    replace (S (length run + length s') - length s')%nat with (S (length run)) by lia.
    cbn [take]. f_equal. by rewrite take_app_length.
Qed.

End Sound.

Lemma match_at_sound a k r b s name rest :
  groups_like a k r -> sets_group r = true -> consumes r = true ->
  match_at r b s = Some (name, rest) ->
  shaped a k name /\ (length rest < length s)%nat /\ rest `suffix_of` s.
Proof.
  intros Hg Hs Hc Hm. unfold match_at in Hm.
  apply (exec_sound a k) in Hm as (pre & s' & b' & cap' & -> & HK & Hne & _ & Hgood);
    [|done].
  injection HK as <- <-. destruct (Hgood Hs) as (n & -> & Hn).
  split; [done|]. split; [|by exists pre].
  rewrite length_app. destruct pre; [by destruct (Hne Hc)|simpl; lia].
Qed.

Lemma registry_patterns (c : category) pattern :
  pattern ∈ patterns_of c ->
  groups_like (first_of c) (further_of c) pattern
  /\ sets_group pattern = true /\ consumes pattern = true.
Proof.
  destruct c; cbn [patterns_of first_of further_of];
    unfold FUNCTION_PATTERNS, CLASS_PATTERNS, METHOD_PATTERNS, CONSTANT_PATTERNS;
    intros Hin; repeat (apply elem_of_cons in Hin as [->|Hin]);
    try (by apply elem_of_nil in Hin);
    (split; [cbv; tauto|split; reflexivity]).
Qed.

(** ** The symbols of a category *)

Lemma set_of_merge (c : category) a b : set_of c (merge a b) = set_of c a ∪ set_of c b.
Proof. by destruct c. Qed.

Lemma set_of_content (c : category) (content : str) :
  set_of c (content_symbols content) = matched (accept_of c) (patterns_of c) content.
Proof. by destruct c. Qed.

Lemma set_of_no_symbols (c : category) : set_of c no_symbols = ∅.
Proof. by destruct c. Qed.

Lemma list_of_symbols (c : category) self :
  list_of c (symbols_of self) = sorted (set_of c (aggregate self)).
Proof. by destruct c. Qed.

Lemma elem_merge_all (c : category) (l : list Aggregate) (name : str) :
  name ∈ set_of c (merge_all l) <-> exists a, a ∈ l /\ name ∈ set_of c a.
Proof.
  induction l as [|a l IH]; simpl.
  - rewrite set_of_no_symbols. split; [set_solver|]. intros (a & Ha & _).
    by apply elem_of_nil in Ha.
  - rewrite set_of_merge, elem_of_union, IH. split.
    + intros [H|(a' & Ha' & H)]; [exists a|exists a']; split; auto.
      * apply list_elem_of_here.
      * by apply list_elem_of_further.
    + intros (a' & [->|Ha']%elem_of_cons & H); eauto.
Qed.

Lemma elem_file_symbols (c : category) (fs : FS) (p : path) (name : str) :
  name ∈ set_of c (file_symbols fs p) <->
  skipped p = false /\
  exists content, read_text fs p = Some content /\
                  name ∈ captures (patterns_of c) content /\
                  accept_of c name = true.
Proof.
  unfold file_symbols. destruct (skipped p).
  { rewrite set_of_no_symbols. split; [set_solver|]. by intros [? _]. }
  destruct (read_text fs p) as [content|].
  - rewrite set_of_content, matched_elem. split.
    + intros H. split; [done|]. by exists content.
    + by intros (_ & content' & [= <-] & H).
  - rewrite set_of_no_symbols. split; [set_solver|]. by intros (_ & ? & ? & _).
Qed.

(** What [extract_files] lists: the names the extractor held, and the
    accepted captures of the files that are read. *)
Lemma extract_files_lists (c : category) (fs : FS) (php_files : list path)
    (self : PHPStubsExtractor) (name : str) :
  name ∈ list_of c (extract_files fs php_files self).1.1 <->
  name ∈ set_of c (aggregate self) \/
  exists file content,
    file ∈ php_files /\ skipped file = false /\ read_text fs file = Some content /\
    name ∈ captures (patterns_of c) content /\ accept_of c name = true.
Proof.
  pose proof (extract_files_spec fs php_files self) as Hs.
  destruct (extract_files fs php_files self) as [[syms self'] out].
  destruct Hs as (-> & _ & Hagg). cbn [fst snd].
  rewrite list_of_symbols, elem_of_sorted, Hagg, set_of_merge, elem_of_union,
    elem_merge_all.
  split; (intros [H|H]; [by left|right]).
  - destruct H as (a & Ha & H). apply list_elem_of_fmap in Ha as (file & -> & Hfile).
    apply elem_file_symbols in H as (Hskip & content & Hread & H).
    by exists file, content.
  - destruct H as (file & content & Hfile & Hskip & Hread & H).
    exists (file_symbols fs file). split; [by apply list_elem_of_fmap_2|].
    apply elem_file_symbols. split; [done|]. by exists content.
Qed.

Lemma explicit_run (w : world) (output_path p : path) (fs : FS) :
  generate_builtins w output_path (Some p) fs
  = ((try_body w output_path p fs).1.1, (try_body w output_path p fs).1.2,
     (try_body w output_path p fs).2 ++ []).
Proof.
  unfold generate_builtins, acquire, finally_.
  by destruct (try_body w output_path p fs) as [[r fs2] out2].
Qed.

Lemma try_body_report (w : world) (output_path p : path) (fs : FS) (report : Report) :
  (try_body w output_path p fs).1.1 = inr report ->
  report = build_output w (extract_all fs (new_extractor p)).1.1.
Proof.
  unfold try_body.
  destruct (extract_all fs (new_extractor p)) as [[syms self'] out].
  destruct (mkdir_parents fs (parent output_path)) as [e|fs1]; [done|].
  destruct (write_file fs1 output_path _) as [e|fs2]; [done|].
  by intros [= <-].
Qed.

Lemma registry_needs_line_start (c : category) pattern s :
  pattern ∈ patterns_of c -> match_at pattern false s = None.
Proof.
  destruct c; cbn [patterns_of];
    unfold FUNCTION_PATTERNS, CLASS_PATTERNS, METHOD_PATTERNS, CONSTANT_PATTERNS;
    intros Hin; repeat (apply elem_of_cons in Hin as [->|Hin]);
    try (by apply elem_of_nil in Hin); reflexivity.
Qed.

Lemma capture_shaped (c : category) (content name : str) :
  name ∈ captures (patterns_of c) content -> shaped (first_of c) (further_of c) name.
Proof.
  unfold captures. intros Hin.
  apply list_elem_of_In, in_flat_map in Hin as (pattern & Hp & Hin).
  apply list_elem_of_In in Hp.
  apply list_elem_of_In, scan_matches in Hin as (b & t & rest & Hm).
  destruct (registry_patterns c pattern Hp) as (Hg & Hs & Hc).
  by destruct (match_at_sound _ _ _ _ _ _ _ Hg Hs Hc Hm).
Qed.

(** X1. A match of a pattern of the registry starts at the start of a line,
    takes at least one character, ends inside the text, and captures a name
    of the shape of its category: an identifier for a function or a method,
    a capitalised identifier for a class, capitals, digits and underscores
    for a constant. *)
Theorem registry_match_sound (c : category) (pattern : regex) (b : bool)
    (s name rest : str) :
  pattern ∈ patterns_of c -> match_at pattern b s = Some (name, rest) ->
  b = true /\ shaped (first_of c) (further_of c) name
  /\ (length rest < length s)%nat /\ rest `suffix_of` s.
Proof.
  intros Hp Hm. split.
  - destruct b; [done|]. by rewrite (registry_needs_line_start c) in Hm.
  - destruct (registry_patterns c pattern Hp) as (Hg & Hs & Hc).
    by apply (match_at_sound _ _ pattern b).
Qed.

Lemma registry_match_sound_witness :
  cat [Bol; Star Space; lit "interface"; Plus Space; g_class] ∈ patterns_of ClassC /\
  match_at (cat [Bol; Star Space; lit "interface"; Plus Space; g_class]) true
    (pystr "  interface Countable {")
  = Some (pystr "Countable", pystr " {") /\
  shaped c_AZ c_az_AZ_09_us (pystr "Countable").
Proof.
  assert (Hp : cat [Bol; Star Space; lit "interface"; Plus Space; g_class]
               ∈ patterns_of ClassC).
  { apply list_elem_of_further, list_elem_of_here. }
  assert (Hm : match_at (cat [Bol; Star Space; lit "interface"; Plus Space; g_class])
                 true (pystr "  interface Countable {")
               = Some (pystr "Countable", pystr " {")) by (vm_compute; reflexivity).
  split; [exact Hp|]. split; [exact Hm|].
  apply (registry_match_sound ClassC _ true _ _ _ Hp Hm).
Defined.

(** X2. With an explicit stubs path, a name is listed under a category of
    the report exactly when some [.php] file below the path that is not
    skipped and can be read holds a capture of one of the category's
    patterns with that name, accepted by the category's filter. *)
Theorem report_lists_exactly (w : world) (output_path root : path) (fs : FS)
    (report : Report) (fs' : FS) (out : list line) (c : category) (name : str) :
  generate_builtins w output_path (Some root) fs = (inr report, fs', out) ->
  (name ∈ list_of c (symbols report) <->
   exists file content,
     file ∈ rglob fs root /\ skipped file = false /\
     read_text fs file = Some content /\
     name ∈ captures (patterns_of c) content /\ accept_of c name = true).
Proof.
  rewrite explicit_run. intros [= Hr _ _]. apply try_body_report in Hr as ->.
  cbn [symbols build_output]. unfold extract_all. cbn [stubs_path new_extractor].
  rewrite extract_files_lists.
  assert (Hempty : set_of c (aggregate (new_extractor root)) = ∅) by by destruct c.
  rewrite Hempty. split; [intros [H|H]; [set_solver|done]|by right].
Qed.

Lemma report_lists_exactly_witness :
  exists fs' out,
    generate_builtins sample_world sample_output (Some sample_root) sample_fs
    = (inr sample_report, fs', out) /\
    (pystr "format" ∈ list_of MethodC (symbols sample_report) <->
     exists file content,
       file ∈ rglob sample_fs sample_root /\ skipped file = false /\
       read_text sample_fs file = Some content /\
       pystr "format" ∈ captures (patterns_of MethodC) content /\
       accept_of MethodC (pystr "format") = true).
Proof.
  destruct (generate_builtins sample_world sample_output (Some sample_root) sample_fs)
    as [[r fs'] out] eqn:Hrun.
  assert (Hr : r = inr sample_report).
  { change r with ((r, fs', out).1.1). rewrite <- Hrun. vm_compute. reflexivity. }
  subst r. exists fs', out. split; [reflexivity|].
  apply (report_lists_exactly _ _ _ _ _ _ _ MethodC (pystr "format") Hrun).
Defined.

(** X3. In every report, whatever the stubs came from, each listed name has
    the shape of its category, and each function and method passed the
    filter: lowered, it is none of the filter's keywords, and it has two
    characters or more. *)
Theorem report_names_well_formed (w : world) (output_path : path)
    (stubs_arg : option path) (fs : FS) (report : Report) (fs' : FS)
    (out : list line) (c : category) (name : str) :
  generate_builtins w output_path stubs_arg fs = (inr report, fs', out) ->
  name ∈ list_of c (symbols report) ->
  shaped (first_of c) (further_of c) name /\ accept_of c name = true /\
  (c = FunctionC \/ c = MethodC ->
   (lower name ∉ keywords) /\ (2 <= length name)%nat).
Proof.
  intros H Hin. apply generate_builtins_report in H as (root & fs1 & ->).
  cbn [symbols build_output] in Hin. unfold extract_all in Hin.
  apply extract_files_lists in Hin as [Hin|(file & content & _ & _ & _ & Hcap & Hacc)].
  { assert (Hempty : set_of c (aggregate (new_extractor root)) = ∅) by by destruct c.
    rewrite Hempty in Hin. set_solver. }
  split; [by eapply capture_shaped|]. split; [done|].
  intros Hc. assert (Hv : _is_valid_function_name name = true)
    by (by destruct Hc as [-> | ->]).
  unfold _is_valid_function_name in Hv.
  apply andb_true_iff in Hv as [H1 H2].
  apply negb_true_iff, bool_decide_eq_false in H1. by apply bool_decide_eq_true in H2.
Qed.

Lemma report_names_well_formed_witness :
  exists fs' out,
    generate_builtins sample_world sample_output (Some sample_root) sample_fs
    = (inr sample_report, fs', out) /\
    pystr "DateTime" ∈ list_of ClassC (symbols sample_report) /\
    shaped c_AZ c_az_AZ_09_us (pystr "DateTime").
Proof.
  destruct (generate_builtins sample_world sample_output (Some sample_root) sample_fs)
    as [[r fs'] out] eqn:Hrun.
  assert (Hr : r = inr sample_report).
  { change r with ((r, fs', out).1.1). rewrite <- Hrun. vm_compute. reflexivity. }
  subst r. exists fs', out. split; [reflexivity|].
  assert (Hin : pystr "DateTime" ∈ list_of ClassC (symbols sample_report))
    by apply list_elem_of_here.
  split; [exact Hin|].
  apply (report_names_well_formed _ _ _ _ _ _ _ ClassC _ Hrun Hin).
Defined.

(** X4. The walk only adds: every name an extractor holds before [walk] it
    holds after, in the same category, and its stubs path stays. *)
Theorem walk_only_adds (fs : FS) (total : nat) (php_files : list path) (i : nat)
    (self : PHPStubsExtractor) (c : category) :
  set_of c (aggregate self) ⊆ set_of c (aggregate (walk fs total php_files i self).1)
  /\ stubs_path (walk fs total php_files i self).1 = stubs_path self.
Proof.
  split; [|apply stubs_path_walk].
  rewrite aggregate_walk, set_of_merge. set_solver.
Qed.

(** X5. The symbols depend on the set of files walked only: two lists with
    the same members, in any order and with any repetitions, give the same
    extractor and the same symbols. *)
Theorem extract_files_same_members (fs : FS) (php_files php_files' : list path)
    (self : PHPStubsExtractor) :
  (forall file, file ∈ php_files <-> file ∈ php_files') ->
  (extract_files fs php_files self).1.2 = (extract_files fs php_files' self).1.2 /\
  (extract_files fs php_files self).1.1 = (extract_files fs php_files' self).1.1.
Proof.
  intros Hsame.
  pose proof (extract_files_spec fs php_files self) as H1.
  pose proof (extract_files_spec fs php_files' self) as H2.
  destruct (extract_files fs php_files self) as [[syms1 self1] out1].
  destruct (extract_files fs php_files' self) as [[syms2 self2] out2].
  destruct H1 as (-> & Hp1 & Ha1), H2 as (-> & Hp2 & Ha2). cbn [fst snd].
  assert (Hall : forall c, set_of c (aggregate self1) = set_of c (aggregate self2)).
  { intros c. rewrite Ha1, Ha2, !set_of_merge. f_equal. apply set_eq. intros name.
    rewrite !elem_merge_all. split; intros (a & Ha & Hname); exists a; split; auto;
      apply list_elem_of_fmap in Ha as (file & -> & Hfile);
      apply list_elem_of_fmap_2; by apply Hsame. }
  assert (self1 = self2) as ->; [|done].
  apply extractor_eq; [congruence|]. unfold aggregate.
  pose proof (Hall FunctionC) as Hf. pose proof (Hall ClassC) as Hc.
  pose proof (Hall MethodC) as Hm. pose proof (Hall ConstantC) as Hk.
  cbn [set_of aggregate fst snd] in Hf, Hc, Hm, Hk. congruence.
Qed.

Lemma extract_files_same_members_witness :
  (forall file, file ∈ sample_files <-> file ∈ sample_files ++ reverse sample_files) /\
  (extract_files sample_fs sample_files (new_extractor sample_root)).1.1
  = (extract_files sample_fs (sample_files ++ reverse sample_files)
       (new_extractor sample_root)).1.1.
Proof.
  assert (H : forall file,
             file ∈ sample_files <-> file ∈ sample_files ++ reverse sample_files).
  { intros file. rewrite elem_of_app, elem_of_reverse. tauto. }
  split; [exact H|].
  apply (extract_files_same_members sample_fs sample_files
           (sample_files ++ reverse sample_files) (new_extractor sample_root) H).
Defined.

(** ** The file system after a run *)

Lemma mkdtemp_parent (w : world) (fs : FS) (d : path) (fs1 : FS) :
  mkdtemp w fs = inr (d, fs1) -> parent d = tmpdir w /\ fs1 !! d = Some Dir.
Proof.
  unfold mkdtemp. destruct (is_dir fs (tmpdir w)); [|done].
  destruct (find _ (tmp_names w)) as [n|]; [|done].
  intros [= <- <-]. split; [|apply lookup_insert_eq].
  unfold parent. rewrite decide_False.
  - apply removelast_last.
  - intros H. apply (f_equal (fun l => last l)) in H. rewrite last_snoc in H.
    simpl in H. discriminate.
Qed.

Lemma populate_keeps (target_dir : path) (tree : list (path * node)) (fs : FS)
    (q : path) (n : node) :
  fs !! q = Some n -> populate target_dir tree fs !! q = Some n.
Proof. intros H. unfold populate. by apply lookup_union_Some_l. Qed.

Lemma mkdir_parents_lookup (fs : FS) (p : path) (fs1 : FS) (q : path) :
  mkdir_parents fs p = inr fs1 -> is_Some (fs !! q) -> fs1 !! q = fs !! q.
Proof.
  unfold mkdir_parents. destruct (_ && _); [done|].
  destruct (forallb _ (seq 1 (length p))) eqn:Hall; [|done].
  intros [= <-] Hq. rewrite forallb_forall in Hall.
  induction (seq 1 (length p)) as [|k ks IH]; [done|]. cbn [foldr].
  destruct (decide (take k p = q)) as [<-|Hne].
  - rewrite lookup_insert_eq.
    specialize (Hall k (or_introl eq_refl)).
    apply orb_true_iff in Hall as [Hno|Hdir].
    + apply negb_true_iff, bool_decide_eq_false in Hno. done.
    + unfold is_dir in Hdir. by destruct (fs !! take k p) as [[]|].
  - rewrite lookup_insert_ne by done. apply IH. intros x Hx. apply Hall. by right.
Qed.

Lemma mkdir_parents_makes (fs : FS) (p : path) (fs1 : FS) :
  mkdir_parents fs p = inr fs1 -> p <> [] -> fs1 !! p = Some Dir.
Proof.
  unfold mkdir_parents. destruct (_ && _); [done|].
  destruct (forallb _ (seq 1 (length p))); [|done].
  intros [= <-] Hne.
  assert (Hin : In (length p) (seq 1 (length p))).
  { apply in_seq. destruct p; [done|]. simpl. lia. }
  induction (seq 1 (length p)) as [|k ks IH]; [done|]. cbn [foldr].
  destruct (decide (take k p = p)) as [Hk|Hk].
  - rewrite Hk. apply lookup_insert_eq.
  - rewrite lookup_insert_ne by done. destruct Hin as [->|Hin]; [|by apply IH].
    by rewrite firstn_all in Hk.
Qed.

Lemma try_body_frame (w : world) (output_path root : path) (fs : FS) (q : path) :
  is_Some (fs !! q) ->
  (q <> output_path -> (try_body w output_path root fs).1.2 !! q = fs !! q) /\
  (forall e, (try_body w output_path root fs).1.1 = inl e ->
     (try_body w output_path root fs).1.2 !! q = fs !! q).
Proof.
  intros Hq. unfold try_body.
  destruct (extract_all fs (new_extractor root)) as [[syms self'] out].
  destruct (mkdir_parents fs (parent output_path)) as [e|fs1] eqn:Hmk.
  { cbn [fst snd]. split; [done|]. by intros e' _. }
  pose proof (mkdir_parents_lookup _ _ _ q Hmk Hq) as H1.
  destruct (write_file fs1 output_path _) as [e|fs2] eqn:Hw.
  { cbn [fst snd]. split; [done|]. by intros e' _. }
  cbn [fst snd]. split; [|by intros e [=]].
  intros Hne. unfold write_file in Hw. destruct (_ || _); [done|].
  destruct (fs1 !! output_path) as [[| |]|]; try done;
    injection Hw as <-; by rewrite lookup_insert_ne.
Qed.

Lemma try_body_writes (w : world) (output_path root : path) (fs : FS)
    (report : Report) (fs2 : FS) (out : list line) :
  try_body w output_path root fs = (inr report, fs2, out) ->
  fs2 !! output_path = Some (File (json_dump w report)) /\
  (parent output_path <> [] -> fs2 !! parent output_path = Some Dir) /\
  last out = Some (Generated output_path (stats report)).
Proof.
  unfold try_body.
  destruct (extract_all fs (new_extractor root)) as [[syms self'] out0].
  destruct (mkdir_parents fs (parent output_path)) as [e|fs1] eqn:Hmk; [done|].
  unfold write_file. destruct (is_dir fs1 output_path || _) eqn:Hdir; [done|].
  assert (Hw :
            (inr (build_output w syms) : exn + Report,
             <[output_path := File (json_dump w (build_output w syms))]> fs1,
             out0 ++ [Generated output_path (stats (build_output w syms))])
            = (inr report, fs2, out) ->
            fs2 !! output_path = Some (File (json_dump w report)) /\
            (parent output_path <> [] -> fs2 !! parent output_path = Some Dir) /\
            last out = Some (Generated output_path (stats report))).
  { intros [= <- <- <-]. split; [apply lookup_insert_eq|].
    split; [|by rewrite last_snoc].
    intros Hne. pose proof (mkdir_parents_makes _ _ _ Hmk Hne) as Hp.
    rewrite lookup_insert_ne; [done|].
    intros Heq. rewrite Heq in Hdir. unfold is_dir in Hdir. rewrite Hp in Hdir. done. }
  destruct (fs1 !! output_path) as [[| |]|] eqn:Ho; try done; exact Hw.
Qed.

Lemma subtree_spec (fs : FS) (p q : path) :
  In q (subtree fs p) <-> is_Some (fs !! q) /\ p `prefix_of` q.
Proof.
  unfold subtree. rewrite filter_In, bool_decide_eq_true.
  enough (In q (map fst (map_to_list fs)) <-> is_Some (fs !! q)) by tauto.
  rewrite in_map_iff. split.
  - intros ([q' n] & <- & Hin). apply list_elem_of_In, elem_of_map_to_list in Hin.
    by exists n.
  - intros [n Hn]. exists (q, n). split; [done|].
    by apply list_elem_of_In, elem_of_map_to_list.
Qed.

Lemma try_body_on_frame (ev : env) (w : world) (output_path root : path) (fs : FS)
    (q : path) :
  is_Some (fs !! q) ->
  (q <> output_path -> (try_body_on ev w output_path root fs).1.2 !! q = fs !! q) /\
  (forall e, (try_body_on ev w output_path root fs).1.1 = inl e ->
     (try_body_on ev w output_path root fs).1.2 !! q = fs !! q \/
     q = output_path /\ e = UnicodeEncodeError /\
     exists report,
       encodes ev (Generated output_path (stats report)) = false /\
       (try_body_on ev w output_path root fs).1.2 !! q
       = Some (File (json_dump w report))) /\
  is_Some ((try_body_on ev w output_path root fs).1.2 !! q).
Proof.
  intros Hq. unfold try_body_on.
  destruct (extract_all_on ev fs (new_extractor root)) as [[e|[syms self']] out].
  { cbn [fst snd]. split; [done|]. split; [by left|done]. }
  destruct (mkdir_parents fs (parent output_path)) as [e|fs1] eqn:Hmk.
  { cbn [fst snd]. split; [done|]. split; [by left|done]. }
  pose proof (mkdir_parents_lookup _ _ _ q Hmk Hq) as H1.
  destruct (write_file fs1 output_path _) as [e|fs2] eqn:Hw.
  { cbn [fst snd]. rewrite H1. split; [done|]. split; [by left|done]. }
  assert (Hfs2 : fs2 = <[output_path := File (json_dump w (build_output w syms))]> fs1).
  { unfold write_file in Hw. destruct (_ || _); [done|].
    destruct (fs1 !! output_path) as [[| |]|]; try done; by injection Hw as <-. }
  assert (Hother : q <> output_path -> fs2 !! q = fs !! q).
  { intros Hne. by rewrite Hfs2, lookup_insert_ne. }
  assert (Hsome : is_Some (fs2 !! q)).
  { rewrite Hfs2. apply lookup_insert_is_Some.
    destruct (decide (output_path = q)); [by left|right]. split; [done|].
    by rewrite H1. }
  destruct (encodes ev (Generated output_path _)) eqn:Henc; cbn [fst snd].
  { split; [done|]. split; [by intros e [=]|done]. }
  split; [done|]. split; [|done]. intros e [= <-].
  destruct (decide (q = output_path)) as [->|Hne]; [right|left; by apply Hother].
  split; [done|]. split; [done|]. exists (build_output w syms). split; [done|].
  rewrite Hfs2. apply lookup_insert_eq.
Qed.

(** X6. A run that cloned the stubs removes, in its [finally], the parent
    of the scratch directory: the directory of temporary files itself.
    When the process may remove every entry there, no path at or below
    that directory exists after the run, however the [try] ended; when it
    may not remove the directory itself, [shutil.rmtree] raises in the
    [finally], and the run ends with that exception and exit status 1,
    also after the report was written. *)
Theorem cloned_run_empties_tmpdir (ev : env) (w : world) (output_path : path)
    (fs : FS) (d : path) (fs1 : FS) (tree : list (path * node)) (q : path) :
  mkdtemp w fs = inr (d, fs1) -> git_clone w = Some tree ->
  encodes ev (Cloning d) = true -> encodes ev CleaningUp = true ->
  ((forall q', tmpdir w `prefix_of` q' -> removable ev q' = true) ->
   tmpdir w `prefix_of` q ->
   (generate_builtins_on ev w output_path None fs).1.2 !! q = None) /\
  (removable ev (tmpdir w) = false ->
   (generate_builtins_on ev w output_path None fs).1.1 = inl OSError /\
   (main_on ev w output_path None fs).1.1 = 1%nat).
Proof.
  intros Hmk Hclone Henc1 Henc2.
  destruct (mkdtemp_parent w fs d fs1 Hmk) as [Hpar Hd].
  assert (Htmp : is_Some (fs1 !! tmpdir w)).
  { destruct (mkdtemp_fresh w fs d fs1 Hmk) as (_ & -> & _).
    apply lookup_insert_is_Some'. right. unfold mkdtemp in Hmk.
    unfold is_dir in Hmk. by destruct (fs !! tmpdir w) as [[| |]|]. }
  unfold main_on, generate_builtins_on, acquire_on, clone_stubs_on, clone_stubs.
  rewrite Hmk, Henc1, Hclone.
  destruct (try_body_on_frame ev w output_path d (populate d tree fs1) d) as (_ & _ & Hkd).
  { exists Dir. by apply populate_keeps. }
  destruct (try_body_on_frame ev w output_path d (populate d tree fs1) (tmpdir w))
    as (_ & _ & Hkt).
  { destruct Htmp as [n Hn]. exists n. by apply populate_keeps. }
  destruct (try_body_on ev w output_path d (populate d tree fs1)) as [[r fs2] out2].
  cbn [fst snd] in Hkd, Hkt. unfold finally_on, rmtree_on.
  assert (He : exists_ fs2 d = true) by by apply bool_decide_eq_true.
  rewrite He, Henc2, Hpar. cbn [andb]. split.
  - intros Hrm Hq.
    replace (forallb (removable ev) (subtree fs2 (tmpdir w))) with true.
    + cbn [fst snd]. by apply rmtree_lookup_under.
    + symmetry. apply forallb_forall. intros q' [_ Hq']%subtree_spec. by apply Hrm.
  - intros Hrm.
    replace (forallb (removable ev) (subtree fs2 (tmpdir w))) with false; [done|].
    symmetry. apply not_true_is_false. intros Hall. rewrite forallb_forall in Hall.
    specialize (Hall (tmpdir w)). rewrite Hrm in Hall.
    assert (false = true) as [=]. apply Hall, subtree_spec. done.
Qed.

Lemma cloned_run_empties_tmpdir_witness :
  mkdtemp clone_world sample_fs
  = inr (["/"; "tmp"; "phpstorm-stubs-a1b2c3d4"]%string,
         <[["/"; "tmp"; "phpstorm-stubs-a1b2c3d4"]%string := Dir]> sample_fs) /\
  is_Some (git_clone clone_world) /\
  is_Some (sample_fs !! (["/"; "tmp"]%string : path)) /\
  (generate_builtins_on perfect_env clone_world sample_output None sample_fs).1.2
    !! (["/"; "tmp"]%string : path) = None.
Proof.
  assert (H : mkdtemp clone_world sample_fs
              = inr (["/"; "tmp"; "phpstorm-stubs-a1b2c3d4"]%string,
                     <[["/"; "tmp"; "phpstorm-stubs-a1b2c3d4"]%string := Dir]> sample_fs)).
  { unfold mkdtemp.
    replace (is_dir sample_fs (tmpdir clone_world)) with true
      by (vm_compute; reflexivity).
    replace (find _ (tmp_names clone_world)) with (Some "a1b2c3d4"%string)
      by (vm_compute; reflexivity).
    reflexivity. }
  split; [exact H|]. split; [by eexists|]. split; [vm_compute; eauto|].
  apply (proj1 (cloned_run_empties_tmpdir perfect_env clone_world sample_output
                  sample_fs _ _ _ (["/"; "tmp"]%string : path) H eq_refl
                  eq_refl eq_refl)); done.
Defined.



(** X8. With an explicit stubs path, a run that returns a report has
    written it: the output path holds what [json.dump] gives for the report
    returned, its parent is a directory, the report is built from what
    [extract_all] finds below the path in the file system the run started
    in, the last line printed reports it, and the exit status is 0. *)
Theorem explicit_run_writes_report (w : world) (output_path p : path) (fs : FS)
    (report : Report) (fs' : FS) (out : list line) :
  generate_builtins w output_path (Some p) fs = (inr report, fs', out) ->
  fs' !! output_path = Some (File (json_dump w report)) /\
  (parent output_path <> [] -> fs' !! parent output_path = Some Dir) /\
  report = build_output w (extract_all fs (new_extractor p)).1.1 /\
  last out = Some (Generated output_path (stats report)) /\
  (main w output_path (Some p) fs).1.1 = 0%nat.
Proof.
  intros Hrun. unfold main. rewrite Hrun. rewrite explicit_run in Hrun.
  injection Hrun as Hr Hfs Hout.
  pose proof (try_body_report _ _ _ _ _ Hr) as Hrep.
  destruct (try_body w output_path p fs) as [[r fs2] out2] eqn:Htb.
  cbn [fst snd] in *. subst r fs2. rewrite app_nil_r in Hout. subst out2.
  destruct (try_body_writes _ _ _ _ _ _ _ Htb) as (H1 & H2 & H3).
  done.
Qed.

Lemma explicit_run_writes_report_witness :
  exists fs' out,
    generate_builtins sample_world sample_output (Some sample_root) sample_fs
    = (inr sample_report, fs', out) /\
    fs' !! sample_output = Some (File (json_dump sample_world sample_report)).
Proof.
  destruct (generate_builtins sample_world sample_output (Some sample_root) sample_fs)
    as [[r fs'] out] eqn:Hrun.
  assert (Hr : r = inr sample_report).
  { change r with ((r, fs', out).1.1). rewrite <- Hrun. vm_compute. reflexivity. }
  subst r. exists fs', out. split; [reflexivity|].
  apply (explicit_run_writes_report _ _ _ _ _ _ _ Hrun).
Defined.

Lemma rmtree_lookup_outside (fs : FS) (p q : path) :
  ~ p `prefix_of` q -> rmtree fs p !! q = fs !! q.
Proof.
  intros Hpre. unfold rmtree. destruct (fs !! q) as [n|] eqn:Hq.
  - by apply map_lookup_filter_Some.
  - apply map_lookup_filter_None. by left.
Qed.

Lemma cloned_run_unfold (w : world) (output_path : path) (fs : FS)
    (d : path) (fs1 : FS) (tree : list (path * node)) :
  mkdtemp w fs = inr (d, fs1) -> git_clone w = Some tree ->
  generate_builtins w output_path None fs
  = ((try_body w output_path d (populate d tree fs1)).1.1,
     rmtree (try_body w output_path d (populate d tree fs1)).1.2 (tmpdir w),
     [Cloning d] ++ (try_body w output_path d (populate d tree fs1)).2 ++ [CleaningUp]).
Proof.
  intros Hmk Hclone. destruct (mkdtemp_parent w fs d fs1 Hmk) as [Hpar Hd].
  unfold generate_builtins, acquire, clone_stubs. rewrite Hmk, Hclone.
  pose proof (try_body_keeps w output_path d (populate d tree fs1) d) as Hkeep.
  destruct (try_body w output_path d (populate d tree fs1)) as [[r fs2] out2].
  cbn [fst snd] in *. unfold finally_.
  assert (He : exists_ fs2 d = true).
  { apply bool_decide_eq_true, Hkeep. exists Dir. by apply populate_keeps. }
  by rewrite He, Hpar.
Qed.

(** X9. A run that cloned the stubs leaves what was outside the directory
    of temporary files as it was, whether it ends well or not: an entry
    that existed before and lies neither in nor below that directory is
    unchanged, the output path apart; and when the run returns a report and
    the output path is not below that directory, the output path holds what
    [json.dump] gives for the report.  The run prints that it clones first
    and that it cleans up last. *)
Theorem cloned_run_frame (w : world) (output_path : path) (fs : FS)
    (d : path) (fs1 : FS) (tree : list (path * node)) :
  mkdtemp w fs = inr (d, fs1) -> git_clone w = Some tree ->
  (forall q, is_Some (fs !! q) -> ~ tmpdir w `prefix_of` q -> q <> output_path ->
     (generate_builtins w output_path None fs).1.2 !! q = fs !! q) /\
  (forall report, (generate_builtins w output_path None fs).1.1 = inr report ->
     ~ tmpdir w `prefix_of` output_path ->
     (generate_builtins w output_path None fs).1.2 !! output_path
     = Some (File (json_dump w report))) /\
  head (generate_builtins w output_path None fs).2 = Some (Cloning d) /\
  last (generate_builtins w output_path None fs).2 = Some CleaningUp.
Proof.
  intros Hmk Hclone. rewrite (cloned_run_unfold _ _ _ _ _ _ Hmk Hclone).
  cbn [fst snd]. destruct (mkdtemp_fresh w fs d fs1 Hmk) as (Hfresh & -> & _).
  destruct (mkdtemp_parent w fs d _ Hmk) as [Hpar _].
  split; [|split; [|split; [done|]]].
  - intros q Hq Hout Hne. rewrite rmtree_lookup_outside by done.
    assert (Hqd : q <> d).
    { intros ->. apply Hout. rewrite <- Hpar. apply parent_prefix. }
    assert (H1 : populate d tree (<[d := Dir]> fs) !! q = fs !! q).
    { destruct Hq as [n Hn]. rewrite Hn. apply populate_keeps.
      by rewrite lookup_insert_ne. }
    rewrite <- H1. apply try_body_frame; [|done]. rewrite H1. done.
  - intros report Hr Hout. rewrite rmtree_lookup_outside by done.
    destruct (try_body w output_path d (populate d tree (<[d := Dir]> fs)))
      as [[r fs2] out2] eqn:Htb.
    cbn [fst snd] in *. subst r. by destruct (try_body_writes _ _ _ _ _ _ _ Htb).
  - by rewrite app_assoc, last_snoc.
Qed.

Lemma cloned_run_frame_witness :
  exists fs',
    (generate_builtins clone_world sample_output None sample_fs).1.2 = fs' /\
    fs' !! in_stubs ["Core"; "Core.php"]%string
    = sample_fs !! in_stubs ["Core"; "Core.php"]%string.
Proof.
  assert (H : mkdtemp clone_world sample_fs
              = inr (["/"; "tmp"; "phpstorm-stubs-a1b2c3d4"]%string,
                     <[["/"; "tmp"; "phpstorm-stubs-a1b2c3d4"]%string := Dir]> sample_fs)).
  { unfold mkdtemp.
    replace (is_dir sample_fs (tmpdir clone_world)) with true
      by (vm_compute; reflexivity).
    replace (find _ (tmp_names clone_world)) with (Some "a1b2c3d4"%string)
      by (vm_compute; reflexivity).
    reflexivity. }
  eexists. split; [reflexivity|].
  apply (proj1 (cloned_run_frame clone_world sample_output sample_fs _ _ _ H eq_refl)).
  - vm_compute. eauto.
  - intros [k Hk]. discriminate Hk.
  - done.
Defined.

(** ** A stubs path that is not a directory *)

Lemma descends_root_dir (fs : FS) (root p : path) :
  descends fs root p = true -> is_dir fs root = true.
Proof.
  unfold descends. intros [[Hpre%bool_decide_eq_true Hlen%bool_decide_eq_true]%andb_true_iff
                             Hall]%andb_true_iff.
  rewrite forallb_forall in Hall. destruct Hpre as [k ->].
  specialize (Hall (length root)). rewrite take_app_length in Hall.
  apply Hall, in_seq. rewrite length_app in *. lia.
Qed.

Lemma rglob_not_dir (fs : FS) (root : path) : is_dir fs root = false -> rglob fs root = [].
Proof.
  intros Hd. unfold rglob. induction (map fst (map_to_list fs)) as [|p l IH]; [done|].
  rewrite filter_cons, IH. rewrite decide_False; [done|].
  intros [_ H%descends_root_dir]%Is_true_true%andb_true_iff. congruence.
Qed.

(** X10. A stubs path that is not a directory (missing, or a file) is no
    error: [rglob] lists nothing, [extract_all] prints that it found 0
    files and returns four empty lists, and a run given such a path that
    returns a report returns one with no symbol and every count 0. *)
Theorem stubs_not_directory (w : world) (output_path p : path) (fs : FS) :
  is_dir fs p = false ->
  rglob fs p = [] /\
  extract_all fs (new_extractor p)
  = ({| sym_functions := []; sym_classes := []; sym_methods := [];
        sym_constants := [] |}, new_extractor p, [Found 0]) /\
  forall report fs' out,
    generate_builtins w output_path (Some p) fs = (inr report, fs', out) ->
    symbols report = {| sym_functions := []; sym_classes := []; sym_methods := [];
                        sym_constants := [] |} /\
    stats report = {| stat_functions := 0; stat_classes := 0; stat_methods := 0;
                      stat_constants := 0; total_unique := 0 |}.
Proof.
  intros Hd. pose proof (rglob_not_dir fs p Hd) as Hr.
  assert (He : extract_all fs (new_extractor p)
    = ({| sym_functions := []; sym_classes := []; sym_methods := [];
          sym_constants := [] |}, new_extractor p, [Found 0])).
  { unfold extract_all. cbn [stubs_path new_extractor]. rewrite Hr.
    unfold extract_files. cbn [walk length]. unfold symbols_of, sorted.
    cbn [functions classes methods constants new_extractor].
    by rewrite elements_empty. }
  split; [done|]. split; [done|].
  intros report fs' out Hrun. rewrite explicit_run in Hrun. injection Hrun as Hrep _ _.
  apply try_body_report in Hrep. rewrite He in Hrep. subst report.
  split; [done|]. unfold build_output. cbn [stats symbols sym_functions sym_classes
    sym_methods sym_constants length list_to_set foldr]. f_equal.
Qed.

Lemma stubs_not_directory_witness :
  is_dir sample_fs ["/"; "nowhere"]%string = false /\
  rglob sample_fs ["/"; "nowhere"]%string = [].
Proof.
  assert (H : is_dir sample_fs ["/"; "nowhere"]%string = false)
    by (vm_compute; reflexivity).
  split; [exact H|].
  apply (stubs_not_directory sample_world sample_output _ sample_fs H).
Defined.

(** ** What the walk prints *)

Lemma walk_log (fs : FS) (total : nat) (php_files : list path) :
  forall (i : nat) (self : PHPStubsExtractor),
  (walk fs total php_files i self).2
  = flat_map (fun kp => walk_lines fs total kp.1 kp.2)
      (zip (seq (i + 1) (length php_files)) php_files).
Proof.
  induction php_files as [|p rest IH]; intros i self; [done|].
  rewrite walk_cons. cbn [length seq zip zip_with flat_map fst snd].
  replace (S (i + 1)) with (S i + 1)%nat by lia.
  unfold walk_lines at 1. destruct (skipped p); [apply IH|].
  unfold _extract_from_file. destruct (read_text fs p) as [content|].
  - specialize (IH (S i) (extract_content content self)).
    destruct (walk fs total rest (S i) (extract_content content self)) as [s2 o2].
    cbn [snd] in *. by rewrite IH.
  - specialize (IH (S i) self).
    destruct (walk fs total rest (S i) self) as [s2 o2].
    cbn [snd] in *. by rewrite IH, <- app_assoc.
Qed.

Lemma warned_app (l1 l2 : list line) : warned (l1 ++ l2) = warned l1 ++ warned l2.
Proof. apply omap_app. Qed.

Lemma warned_walk_lines (fs : FS) (total : nat) (php_files : list path) :
  forall ks : list nat, length ks = length php_files ->
  warned (flat_map (fun kp => walk_lines fs total kp.1 kp.2) (zip ks php_files))
  = List.filter (fun p => negb (skipped p) && negb (bool_decide (is_Some (read_text fs p))))
      php_files.
Proof.
  induction php_files as [|p rest IH]; intros [|k ks] Hlen; try done.
  cbn [zip zip_with flat_map List.filter fst snd]. rewrite warned_app, IH by (simpl in *; lia).
  unfold walk_lines. destruct (skipped p); [done|].
  destruct (read_text fs p); cbn [negb andb];
    [rewrite bool_decide_true by eauto|rewrite bool_decide_false by (by intros [??])];
    by destruct (_ =? _)%nat.
Qed.

(** X11. What [extract_all] prints depends on the files and the file system
    only, not on what the extractor holds: the number of files, then, for
    each file that is not skipped and in the order of the listing, a
    warning if it cannot be read and a progress line if its position,
    counted from one over all the files listed, is a multiple of 100.  So
    the warnings are, in order, the files not skipped that cannot be read,
    and a file in a skipped directory never gives a progress line. *)
Theorem extract_files_log (fs : FS) (php_files : list path) (self : PHPStubsExtractor) :
  (extract_files fs php_files self).2
  = Found (length php_files)
    :: flat_map (fun kp => walk_lines fs (length php_files) kp.1 kp.2)
         (zip (seq 1 (length php_files)) php_files) /\
  warned (extract_files fs php_files self).2
  = List.filter (fun p => negb (skipped p) && negb (bool_decide (is_Some (read_text fs p))))
      php_files.
Proof.
  assert (H : (extract_files fs php_files self).2
    = Found (length php_files)
      :: flat_map (fun kp => walk_lines fs (length php_files) kp.1 kp.2)
           (zip (seq 1 (length php_files)) php_files)).
  { unfold extract_files.
    pose proof (walk_log fs (length php_files) php_files 0 self) as Hw.
    destruct (walk fs (length php_files) php_files 0 self) as [s o].
    cbn [snd] in *. by rewrite Hw. }
  split; [done|]. rewrite H.
  change (warned (Found ?n :: ?l)) with (warned l).
  apply warned_walk_lines. by rewrite length_seq.
Qed.

(** ** [finditer] finds every declaration *)

Section Covers.

Variable r : regex.
Hypothesis r_finds : forall s name,
  fstart s name -> exists rest, match_at r true s = Some (name, rest).
Hypothesis r_shorter : forall b s name rest,
  match_at r b s = Some (name, rest) -> b = true /\ (length rest < length s)%nat.
Hypothesis r_covers : forall s t m rest n,
  match_at r true s = Some (m, rest) -> follows_space s t ->
  (length rest < length t)%nat -> fstart t n -> n = m.

Lemma scan_covers (s : str) : forall (b : bool) (k : nat) (name : str),
  (b = true /\ k = 0%nat /\ fstart s name
   \/ exists t, follows_nl s t /\ (length t + k <= length s)%nat /\ fstart t name) ->
  name ∈ scan r b s k.
Proof.
  induction s as [|c s IH]; intros b k name Hhit.
  - destruct Hhit as [(_ & _ & rest & Hf)|(t & Ht & _)]; [|inversion Ht].
    by cbn in Hf.
  - cbn [scan]. destruct k as [|k].
    + destruct (match_at r b (c :: s)) as [[m rest]|] eqn:Hm.
      * pose proof (r_shorter _ _ _ _ Hm) as [-> Hshort].
        destruct Hhit as [(_ & _ & Hf)|(t & Ht & Hlen & Hf)].
        { apply r_finds in Hf as [rest' Hf].
          rewrite Hf in Hm. injection Hm as -> _. apply list_elem_of_here. }
        destruct (decide (length rest < length t)%nat) as [Hin|Hout].
        { rewrite (r_covers _ _ _ _ _ Hm (follows_nl_space _ _ Ht) Hin Hf).
          apply list_elem_of_here. }
        apply list_elem_of_further, IH.
        apply follows_nl_cons in Ht as [[Hc ->]|Ht].
        -- left. split; [done|]. split; [|done]. simpl in *. lia.
        -- right. exists t. split; [done|]. split; [|done].
           apply follows_nl_space, follows_space_length in Ht. simpl in *. lia.
      * apply IH. destruct Hhit as [(-> & _ & Hf)|(t & Ht & Hlen & Hf)].
        { apply r_finds in Hf as [rest' Hf]. congruence. }
        apply follows_nl_cons in Ht as [[Hc ->]|Ht]; [by left|].
        right. exists t. split; [done|]. split; [|done].
        apply follows_nl_space, follows_space_length in Ht. lia.
    + apply IH. destruct Hhit as [(_ & [=] & _)|(t & Ht & Hlen & Hf)].
      apply follows_nl_cons in Ht as [[Hc ->]|Ht].
      * left. split; [done|]. split; [|done]. simpl in Hlen. lia.
      * right. exists t. split; [done|]. split; [|done]. simpl in Hlen. lia.
Qed.

End Covers.

Lemma first_function_pattern_exec (b : bool) (s : str) :
  match_at F1 b s = if b then fn_tail (skip Space s) else None.
Proof.
  unfold F1. rewrite function_pattern_exec by done. destruct b; [|done].
  by destruct (fn_tail (skip Space s)) as [[name rest]|].
Qed.

Lemma first_function_pattern_covers (s : str) (b : bool) (k : nat) (name : str) :
  (b = true /\ k = 0%nat /\ fstart s name
   \/ exists t, follows_nl s t /\ (length t + k <= length s)%nat /\ fstart t name) ->
  name ∈ scan F1 b s k.
Proof.
  apply scan_covers.
  - intros s0 n [rest Hf]. exists rest. by rewrite first_function_pattern_exec.
  - intros b0 s0 n rest. rewrite first_function_pattern_exec.
    destruct b0; [|done]. intros H%fn_tail_shorter.
    pose proof (skip_length Space s0). split; [done|lia].
  - intros s0 t m rest n. rewrite first_function_pattern_exec.
    intros Hm Hft Hlen [rest' Hf].
    apply follows_space_skip in Hft as [Heq|Hft].
    + rewrite Heq in Hf. cbn in Hm. congruence.
    + exfalso. exact (fn_tail_inside _ _ _ _ _ _ Hm Hft Hlen Hf).
Qed.

Lemma function_captures_starts (content name : str) :
  name ∈ captures FUNCTION_PATTERNS content ->
  fstart content name \/ exists t, follows_nl content t /\ fstart t name.
Proof.
  unfold captures.
  intros Hin. apply list_elem_of_In, in_flat_map in Hin as (pattern & Hp & Hin).
  apply list_elem_of_In in Hp. apply list_elem_of_In in Hin.
  apply (scan_function_starts pattern) in Hin; [|done].
  destruct Hin as [[_ Hf]|Hin]; auto.
Qed.

Lemma starts_first_function_pattern (content name : str) :
  fstart content name \/ (exists t, follows_nl content t /\ fstart t name) ->
  name ∈ finditer F1 content.
Proof.
  intros H. apply first_function_pattern_covers.
  destruct H as [Hf|(t & Ht & Hf)]; [by left|].
  right. exists t. split; [done|]. split; [|done].
  apply follows_nl_space, follows_space_length in Ht. lia.
Qed.

(** X12. The function patterns capture exactly the names of the lines that
    start a function declaration: a name is captured if and only if the
    text, or what follows one of its line feeds, is white space, the word
    function, white space, the name, white space and an opening
    parenthesis.  No declaration is lost to the rule that the matches of
    [finditer] do not overlap. *)
Theorem function_captures_exact (content name : str) :
  name ∈ captures FUNCTION_PATTERNS content
  <-> fstart content name \/ exists t, follows_nl content t /\ fstart t name.
Proof.
  split; [apply function_captures_starts|].
  intros H%starts_first_function_pattern. unfold captures.
  rewrite FUNCTION_PATTERNS_eq. cbn [flat_map]. apply elem_of_app. by left.
Qed.

(** X13. The second function pattern, which asks for a return type after
    the parameters, finds nothing the first has not found: the functions a
    text adds to a set are the same with the first pattern alone. *)
Theorem second_function_pattern_redundant (content : str) (the_set : gset str) :
  add_matches _is_valid_function_name FUNCTION_PATTERNS content the_set
  = add_matches _is_valid_function_name (take 1 FUNCTION_PATTERNS) content the_set.
Proof.
  rewrite !add_matches_union. f_equal. apply set_eq. intros n.
  rewrite !matched_elem.
  enough (n ∈ captures FUNCTION_PATTERNS content
          <-> n ∈ captures (take 1 FUNCTION_PATTERNS) content) by tauto.
  split.
  - intros H%function_captures_starts%starts_first_function_pattern.
    rewrite FUNCTION_PATTERNS_eq. unfold captures. cbn [take flat_map].
    by rewrite app_nil_r.
  - rewrite FUNCTION_PATTERNS_eq. unfold captures. cbn [take flat_map].
    rewrite app_nil_r. intros H. apply elem_of_app. by left.
Qed.

(** X14. On the first function pattern and on the method pattern the
    backtracking matcher never has to go back: a match exists only at the
    start of a line, and it is the one a single pass from left to right
    finds, which takes every white-space run and the name as long as they
    go ([fn_tail], [method_tail]). *)
Theorem declaration_patterns_deterministic (b : bool) (s : str) :
  match_at (nth 0 FUNCTION_PATTERNS Eps) b s
  = (if b then fn_tail (skip Space s) else None) /\
  match_at (nth 0 METHOD_PATTERNS Eps) b s
  = (if b then method_tail (skip Space s) else None).
Proof.
  split.
  - apply first_function_pattern_exec.
  - change (nth 0 METHOD_PATTERNS Eps) with M1. rewrite method_pattern_exec.
    by destruct b.
Qed.

(** ** The text a file is read as *)

Lemma universal_newlines_no_cr (s : str) :
  Forall (fun c => c <> CR) (Utf8.universal_newlines s).
Proof.
  remember (length s) as n eqn:Hn. revert s Hn.
  induction n as [n IH] using lt_wf_ind. intros s ->.
  destruct s as [|c t]; [constructor|]. cbn [Utf8.universal_newlines].
  destruct (c =? CR) eqn:Hc.
  - constructor; [done|]. destruct t as [|d t']; [constructor|].
    destruct (d =? NL); (eapply IH; [|reflexivity]); simpl; lia.
  - constructor; [by apply N.eqb_neq|]. eapply IH; [|reflexivity]. simpl; lia.
Qed.

Lemma universal_newlines_scalar (s : str) :
  Forall scalar s -> Forall scalar (Utf8.universal_newlines s).
Proof.
  remember (length s) as n eqn:Hn. revert s Hn.
  induction n as [n IH] using lt_wf_ind. intros s -> Hs.
  destruct s as [|c t]; [constructor|]. cbn [Utf8.universal_newlines].
  apply Forall_cons in Hs as [Hc Ht].
  destruct (c =? CR).
  - constructor; [unfold scalar, NL; lia|]. destruct t as [|d t']; [constructor|].
    apply Forall_cons in Ht as [Hd Ht'].
    destruct (d =? NL); (eapply IH; [|reflexivity|]); simpl; try lia; try done.
    by constructor.
  - constructor; [done|]. eapply IH; [|reflexivity|done]. simpl; lia.
Qed.

Lemma fmap_cons_Forall (P : N -> Prop) (c : N) (o : option str) (s : str) :
  P c -> (forall s', o = Some s' -> Forall P s') -> cons c <$> o = Some s -> Forall P s.
Proof.
  intros Hc Ho. destruct o as [s'|]; [|done]. intros [= <-]. constructor; auto.
Qed.

Ltac cont_bounds :=
  repeat match goal with
         | H : Utf8.is_cont _ = true |- _ =>
             apply andb_true_iff in H as [?%N.leb_le ?%N.ltb_lt]
         | H : (_ || _) = false |- _ => apply orb_false_iff in H as [? ?]
         | H : negb _ = false |- _ => apply negb_false_iff in H
         | H : (_ && _) = false |- _ => apply andb_false_iff in H
         | H : (_ <? _) = false |- _ => apply N.ltb_ge in H
         | H : (_ <? _) = true |- _ => apply N.ltb_lt in H
         | H : (_ <=? _) = false |- _ => apply N.leb_gt in H
         | H : (_ =? _) = false |- _ => apply N.eqb_neq in H
         end.

Lemma decode_scalar (ignore : bool) (bs : list N) (s : str) :
  Utf8.decode ignore bs = Some s -> Forall scalar s.
Proof.
  remember (length bs) as n eqn:Hn. revert bs s Hn.
  induction n as [n IH] using lt_wf_ind. intros bs s ->.
  assert (Hrec : forall t s', (length t < length bs)%nat ->
            Utf8.decode ignore t = Some s' -> Forall scalar s').
  { intros t s' Ht. by eapply IH. }
  clear IH.
  assert (Hbad : forall t, (length t < length bs)%nat ->
            (if ignore then Utf8.decode ignore t else None) = Some s -> Forall scalar s).
  { intros t Ht. destruct ignore; [by apply Hrec|done]. }
  assert (Hend : (if ignore then Some [] else None) = Some s -> Forall scalar s).
  { destruct ignore; [|done]. intros [= <-]. constructor. }
  destruct bs as [|b0 t0]; [intros [= <-]; constructor|].
  cbn [Utf8.decode].
  destruct (b0 <? 128) eqn:H128.
  { apply fmap_cons_Forall; [cont_bounds; unfold scalar; lia|].
    intros s'. apply Hrec. simpl; lia. }
  destruct (b0 <? 194) eqn:H194; [apply Hbad; simpl; lia|].
  destruct (b0 <? 224) eqn:H224.
  { destruct t0 as [|b1 t1]; [done|].
    destruct (Utf8.is_cont b1) eqn:Hc1; [|apply Hbad; simpl; lia].
    apply fmap_cons_Forall; [cont_bounds; unfold scalar; lia|].
    intros s'. apply Hrec. simpl; lia. }
  destruct (b0 <? 240) eqn:H240.
  { destruct t0 as [|b1 t1]; [done|].
    destruct (_ || _) eqn:Hg; [apply Hbad; simpl; lia|].
    destruct t1 as [|b2 t2]; [done|].
    destruct (Utf8.is_cont b2) eqn:Hc2; [|apply Hbad; simpl; lia].
    apply fmap_cons_Forall; [|intros s'; apply Hrec; simpl; lia].
    cont_bounds. unfold scalar.
    repeat match goal with H : _ \/ _ |- _ => destruct H end; cont_bounds; lia. }
  destruct (b0 <? 245) eqn:H245; [|apply Hbad; simpl; lia].
  destruct t0 as [|b1 t1]; [done|].
  destruct (_ || _) eqn:Hg; [apply Hbad; simpl; lia|].
  destruct t1 as [|b2 t2]; [done|].
  destruct (Utf8.is_cont b2) eqn:Hc2; [|apply Hbad; simpl; lia].
  destruct t2 as [|b3 t3]; [done|].
  destruct (Utf8.is_cont b3) eqn:Hc3; [|apply Hbad; simpl; lia].
  apply fmap_cons_Forall; [|intros s'; apply Hrec; simpl; lia].
  cont_bounds. unfold scalar.
  repeat match goal with H : _ \/ _ |- _ => destruct H end; cont_bounds; lia.
Qed.

(** X15. The text of a file that can be read is made of Unicode scalar
    values (code points up to 10FFFF that are no surrogates), whatever its
    bytes, and holds no carriage return: the ill-formed bytes are dropped,
    not replaced, and every line end has become a line feed before the
    patterns see it. *)
Theorem read_text_scalar (fs : FS) (p : path) (content : str) :
  read_text fs p = Some content ->
  Forall scalar content /\ Forall (fun c => c <> CR) content.
Proof.
  unfold read_text. destruct (fs !! p) as [[|data|]|]; try done.
  intros [= <-]. unfold Utf8.read. split; [|apply universal_newlines_no_cr].
  apply universal_newlines_scalar.
  destruct (Utf8.decode true (map Byte.to_N data)) as [s|] eqn:Hd; [|constructor].
  by eapply decode_scalar.
Qed.

Lemma read_text_scalar_witness :
  exists content,
    read_text latin1_fs (in_stubs ["latin1.php"]%string) = Some content /\
    Forall scalar content.
Proof.
  destruct (read_text latin1_fs (in_stubs ["latin1.php"]%string))
    as [content|] eqn:Hr; [|by vm_compute in Hr].
  exists content. split; [done|].
  apply (read_text_scalar latin1_fs _ content Hr).
Defined.

Lemma decode_strict_ignore (bs : list N) (s : str) :
  Utf8.decode false bs = Some s -> Utf8.decode true bs = Some s.
Proof.
  remember (length bs) as n eqn:Hn. revert bs s Hn.
  induction n as [n IH] using lt_wf_ind. intros bs s ->.
  assert (Hrec : forall c t, (length t < length bs)%nat ->
            cons c <$> Utf8.decode false t = Some s ->
            cons c <$> Utf8.decode true t = Some s).
  { intros c t Ht. destruct (Utf8.decode false t) as [s'|] eqn:Hd; [|done].
    by rewrite (IH _ Ht t s' eq_refl Hd). }
  clear IH.
  destruct bs as [|b0 t0]; [done|].
  cbn [Utf8.decode].
  destruct (b0 <? 128); [apply Hrec; simpl; lia|].
  destruct (b0 <? 194); [done|].
  destruct (b0 <? 224).
  { destruct t0 as [|b1 t1]; [done|].
    destruct (Utf8.is_cont b1); [|done]. apply Hrec. simpl; lia. }
  destruct (b0 <? 240).
  { destruct t0 as [|b1 t1]; [done|].
    destruct (_ || _); [done|].
    destruct t1 as [|b2 t2]; [done|].
    destruct (Utf8.is_cont b2); [|done]. apply Hrec. simpl; lia. }
  destruct (b0 <? 245); [|done].
  destruct t0 as [|b1 t1]; [done|].
  destruct (_ || _); [done|].
  destruct t1 as [|b2 t2]; [done|].
  destruct (Utf8.is_cont b2); [|done].
  destruct t2 as [|b3 t3]; [done|].
  destruct (Utf8.is_cont b3); [|done]. apply Hrec. simpl; lia.
Qed.

(** X16. On a file whose bytes are well-formed UTF-8, [errors='ignore']
    changes nothing: the text scanned is what the strict decoder gives,
    with the line ends made line feeds. *)
Theorem read_text_well_formed (fs : FS) (p : path) (data : list byte) (s : str) :
  fs !! p = Some (File data) ->
  Utf8.decode false (map Byte.to_N data) = Some s ->
  read_text fs p = Some (Utf8.universal_newlines s).
Proof.
  intros Hp Hs%decode_strict_ignore. unfold read_text, Utf8.read. by rewrite Hp, Hs.
Qed.

Lemma read_text_well_formed_witness :
  read_text (<[["a.php"]%string := File (bytes_of "function f1() {}")]> ∅)
    ["a.php"]%string
  = Some (Utf8.universal_newlines (pystr "function f1() {}")).
Proof.
  apply (read_text_well_formed _ _ (bytes_of "function f1() {}")).
  - apply lookup_insert_eq.
  - vm_compute. reflexivity.
Defined.

(** ** The two readings of the run *)


